(** * vless-rail: the descriptor parser and the report builder of [main.py]

    A shallow embedding of [VLESSChecker.parse_config] and
    [VLESSChecker.run_check] together with the parts of the Python runtime
    they rely on, and the properties of the two that the specification
    states.

    Conventions.
    - A Python [str] is a Rocq [string]: the sequence of bytes of its UTF-8
      encoding.  Every delimiter the parser looks for ([@ # ? : & =]) and the
      scheme prefix are ASCII, so searching and splitting on bytes and on
      code points cut the text at the same places.
    - Python values that travel through dictionaries are [Py.val]; a [dict]
      is an association list in insertion order.
    - Code that may raise lives in the [Py.result] monad; [try/except] is
      [Py.try_except]. *)

From stdpp Require Import base tactics option list strings gmap pretty.
From Stdlib Require Import ZArith Ascii String Lia.

Open Scope Z_scope.
Open Scope string_scope.

(** ** The Python runtime, as far as [main.py] uses it *)

Module Py.

(** Exceptions the modelled code can raise. *)
Inductive exn : Type :=
| ValueError (msg : string)
| KeyError (key : string)
| TypeError (msg : string).

(** The outcome of evaluating a piece of Python: a value or a raised
    exception. *)
Inductive result (A : Type) : Type :=
| Return (a : A)
| Raise (e : exn).
Arguments Return {A} a.
Arguments Raise {A} e.

#[global] Instance result_ret : MRet result := λ A a, Return a.
#[global] Instance result_bind : MBind result := λ A B f m,
  match m with
  | Return a => f a
  | Raise e => Raise e
  end.

(** [try: body / except: handler] with a bare [except], which catches every
    exception. *)
Definition try_except {A} (body : result A) (handler : exn → result A) : result A :=
  match body with
  | Return a => Return a
  | Raise e => handler e
  end.

(** [for x in xs: acc = body(acc, x)], stopping at the first exception. *)
Fixpoint for_each {A B} (body : B → A → result B) (xs : list A) (acc : B) : result B :=
  match xs with
  | [] => Return acc
  | x :: xs' => acc' ← body acc x; for_each body xs' acc'
  end.

(** Values: [None], [bool], [int], [str] and [dict] with [str] keys. *)
#[local] Unset Elimination Schemes.
Inductive val : Type :=
| PNone
| PBool (b : bool)
| PInt (z : Z)
| PStr (s : string)
| PDict (d : list (string * val)).
#[local] Set Elimination Schemes.

(** *** Strings *)

(** [sep in s] for a one-character [sep]. *)
Fixpoint contains (sep : ascii) (s : string) : bool :=
  match s with
  | "" => false
  | String c s' => if Ascii.eqb c sep then true else contains sep s'
  end.

(** [s.startswith(p)]. *)
Fixpoint startswith (s p : string) : bool :=
  match p, s with
  | "", _ => true
  | String _ _, "" => false
  | String a p', String c s' => if Ascii.eqb c a then startswith s' p' else false
  end.

(** [s[n:]]: slicing never raises, a short string gives the empty one. *)
Fixpoint slice_from (n : nat) (s : string) : string :=
  match n, s with
  | O, _ => s
  | S _, "" => ""
  | S n', String _ s' => slice_from n' s'
  end.

(** The text around the first occurrence of [sep], if there is one. *)
Fixpoint cut_first (sep : ascii) (s : string) : option (string * string) :=
  match s with
  | "" => None
  | String c s' =>
      if Ascii.eqb c sep then Some ("", s')
      else match cut_first sep s' with
           | Some (a, b) => Some (String c a, b)
           | None => None
           end
  end.

(** The text around the last occurrence of [sep], if there is one. *)
Fixpoint cut_last (sep : ascii) (s : string) : option (string * string) :=
  match s with
  | "" => None
  | String c s' =>
      match cut_last sep s' with
      | Some (a, b) => Some (String c a, b)
      | None => if Ascii.eqb c sep then Some ("", s') else None
      end
  end.

(** [s.split(sep, 1)]: at most one cut, at the first [sep]. *)
Definition split1 (sep : ascii) (s : string) : list string :=
  match cut_first sep s with
  | Some (a, b) => [a; b]
  | None => [s]
  end.

(** [s.rsplit(sep, 1)]: at most one cut, at the last [sep]. *)
Definition rsplit1 (sep : ascii) (s : string) : list string :=
  match cut_last sep s with
  | Some (a, b) => [a; b]
  | None => [s]
  end.

(** [s.split(sep)]: a cut at every [sep]; the result is never empty. *)
Fixpoint split (sep : ascii) (s : string) : list string :=
  match s with
  | "" => [""]
  | String c s' =>
      if Ascii.eqb c sep then "" :: split sep s'
      else match split sep s' with
           | piece :: pieces => String c piece :: pieces
           | [] => [String c ""]
           end
  end.

(** [a, b = xs]: unpacking into two targets raises [ValueError] unless [xs]
    has exactly two items. *)
Definition unpack2 {A} (xs : list A) : result (A * A) :=
  match xs with
  | [a; b] => Return (a, b)
  | [] | [_] => Raise (ValueError "not enough values to unpack")
  | _ => Raise (ValueError "too many values to unpack")
  end.

(** *** [int(s)] on ASCII text

    Base-10 reading of a [str]: surrounding white space is dropped, one sign
    may lead, and the digits may be grouped by single underscores placed
    between two digits.  Anything else raises [ValueError].

    This is what the builtin does on ASCII text of ordinary length.  Beyond
    that it depends on the interpreter (digits and white space of other
    scripts are accepted according to its Unicode tables, very long numbers
    may be refused), so the parser below is defined over any reader of this
    type, and [ascii_int] is the one used to run it. *)

Fixpoint lstrip (s : string) : string :=
  match s with
  | String c s' => if Ascii.is_space c then lstrip s' else s
  | "" => ""
  end.

Definition strip (s : string) : string :=
  String.rev (lstrip (String.rev (lstrip s))).

(** The digits after the sign.  [after_digit] records that the previous
    character was a digit, which is what an underscore and the end of the
    text both need. *)
Fixpoint int_digits (acc : Z) (after_digit : bool) (s : string) : option Z :=
  match s with
  | "" => if after_digit then Some acc else None
  | String c s' =>
      match Ascii.is_nat c with
      | Some d => int_digits (10 * acc + Z.of_nat d) true s'
      | None =>
          if Ascii.eqb c "_" && after_digit then int_digits acc false s'
          else None
      end
  end.

Definition int_literal (s : string) : option Z :=
  match strip s with
  | String "-" s' => Z.opp <$> int_digits 0 false s'
  | String "+" s' => int_digits 0 false s'
  | s' => int_digits 0 false s'
  end.

Definition ascii_int (s : string) : result Z :=
  match int_literal s with
  | Some z => Return z
  | None => Raise (ValueError ("invalid literal for int() with base 10: " +:+ s))
  end.

(** *** Dictionaries *)

(** [d.get(k)] on an association list in insertion order. *)
Fixpoint dict_get {V} (k : string) (d : list (string * V)) : option V :=
  match d with
  | [] => None
  | (k', v) :: d' => if String.eqb k' k then Some v else dict_get k d'
  end.

(** [d[k] = v]: an existing key keeps its place, a new key goes last. *)
Fixpoint dict_set {V} (k : string) (v : V) (d : list (string * V)) : list (string * V) :=
  match d with
  | [] => [(k, v)]
  | (k', v') :: d' =>
      if String.eqb k' k then (k, v) :: d' else (k', v') :: dict_set k v d'
  end.

Definition keys {V} (d : list (string * V)) : list string := d.*1.

(** [o[k]]: subscription raises [KeyError] on a missing key and [TypeError]
    on a value that is not a dictionary. *)
Definition getitem (o : val) (k : string) : result val :=
  match o with
  | PDict d =>
      match dict_get k d with
      | Some v => Return v
      | None => Raise (KeyError k)
      end
  | _ => Raise (TypeError "object is not subscriptable")
  end.

(** [o[k] = v]. *)
Definition setitem (o : val) (k : string) (v : val) : result val :=
  match o with
  | PDict d => Return (PDict (dict_set k v d))
  | _ => Raise (TypeError "object does not support item assignment")
  end.

(** [o[k1][k2] = v]: the inner dictionary is the very object stored under
    [k1], so the assignment is seen through [o]. *)
Definition setitem2 (o : val) (k1 k2 : string) (v : val) : result val :=
  inner ← getitem o k1;
  inner' ← setitem inner k2 v;
  setitem o k1 inner'.

(** *** Truth value, formatting, [all] and [sum] *)

(** The truth value of an object, as [if] and [not] take it. *)
Definition truthy (v : val) : bool :=
  match v with
  | PNone => false
  | PBool b => b
  | PInt z => negb (z =? 0)%Z
  | PStr s => negb (String.eqb s "")
  | PDict d => match d with [] => false | _ :: _ => true end
  end.

(** [str(n)] for an [int]. *)
Definition str_of_int (z : Z) : string := pretty z.

(** What an f-string field [{v}] prints, for the values formatted here:
    a [str] as it is, an [int] in decimal. *)
Definition format (v : val) : result string :=
  match v with
  | PStr s => Return s
  | PInt z => Return (str_of_int z)
  | PBool true => Return "True"
  | PBool false => Return "False"
  | PNone => Return "None"
  | PDict _ => Raise (TypeError "formatting a dict is not modelled")
  end.

(** [all(bs)] over a list of [bool]. *)
Definition all (bs : list bool) : bool := forallb id bs.

(** [sum(bs)] over a list of [bool]: [True] counts 1, [False] counts 0. *)
Definition sum (bs : list bool) : Z :=
  foldl (λ acc (b : bool), acc + (if b then 1 else 0)) 0 bs.

(** [len(xs)]. *)
Definition len {A} (xs : list A) : Z := Z.of_nat (List.length xs).

End Py.

(** ** The checker *)

Module VLESSChecker.
Import Py.

(** *** [parse_config] (main.py, lines 24-69) *)

Section ParseConfig.

(** The builtin [int] applied to a [str]: the reading of the port text.
    The parser only asks whether it returns or raises, so it is defined
    over any reader; [Py.ascii_int] is the builtin on ASCII text. *)
Variable int : string → result Z.

(** Lines 45-49: host and port out of the address part. *)
Definition split_port (address_part : string) : result (string * Z) :=
  if contains ":" address_part then
    '(host, port) ← unpack2 (rsplit1 ":" address_part);
    port ← int port;
    mret (host, port)
  else mret (address_part, 443).

(** Lines 54-56: the body of the loop over the [&]-separated pieces. *)
Definition param_step (params : gmap string string) (param : string)
    : result (gmap string string) :=
  if contains "=" param then
    '(key, value) ← unpack2 (split1 "=" param);
    mret (<[key := value]> params)
  else mret params.

(** Lines 51-56: [params], filled from the query text. *)
Definition parse_params (params_part : string) : result (gmap string string) :=
  if truthy (PStr params_part) then
    for_each param_step (split "&" params_part) ∅
  else mret ∅.

(** Lines 58-67: the dictionary that is returned. *)
Definition descriptor (uuid_part host : string) (port : Z) (name : string)
    (params : gmap string string) : val :=
  PDict [ ("uuid", PStr uuid_part);
          ("host", PStr host);
          ("port", PInt port);
          ("name", PStr name);
          ("security", PStr (default "none" (params !! "security")));
          ("type", PStr (default "tcp" (params !! "type")));
          ("sni", PStr (default "" (params !! "sni")));
          ("flow", PStr (default "" (params !! "flow"))) ].

Definition parse_config (config_str : string) : result val :=
  try_except
    (if negb (startswith config_str "vless://") then mret PNone else
     let config_str := slice_from 8 config_str in
     if negb (contains "@" config_str) then mret PNone else
     '(uuid_part, rest) ← unpack2 (split1 "@" config_str);
     '(server_part, name) ←
       (if contains "#" rest then unpack2 (rsplit1 "#" rest)
        else mret (rest, "Unknown"));
     '(address_part, params_part) ←
       (if contains "?" server_part then unpack2 (split1 "?" server_part)
        else mret (server_part, ""));
     '(host, port) ← split_port address_part;
     params ← parse_params params_part;
     mret (descriptor uuid_part host port name params))
    (λ _, mret PNone).

(** The part of [parse_config] that follows the cuts at [@], [#] and [?]:
    what remains to be done once the identity, the address part, the query
    and the label are known. *)
Definition finish (uuid address query label : string) : result val :=
  try_except
    ('(host, port) ← split_port address;
     params ← parse_params query;
     mret (descriptor uuid host port label params))
    (λ _, mret PNone).

(** What one turn of the loop does to [params], as a function: the loop
    body never raises (see [param_step_returns]). *)
Definition set_param (params : gmap string string) (param : string)
    : gmap string string :=
  match cut_first "=" param with
  | Some (key, value) => <[key := value]> params
  | None => params
  end.

(** [__init__]: the checker keeps the parsed descriptor as [self.config]. *)
Definition init (config_str : string) : result val := parse_config config_str.

End ParseConfig.

(** *** The probes (lines 71-154)

    What the network answers is not decided by the program.  Each probe is
    modelled up to the point where it goes to the network; from there on its
    answer, the [(success, message)] pair that the rest of its [try] block
    and its [except Exception] handler produce, is given by the
    environment. *)
Record Env : Type := {
  (** [datetime.now().strftime('%Y-%m-%d %H:%M:%S')] *)
  now : string;
  (** resolving [host] (lines 77-85) *)
  dns_lookup : val → bool * string;
  (** resolving [host] again and asking the geolocation service
      (lines 93-108) *)
  geo_lookup : val → bool * string;
  (** connecting to [host], [port] (lines 118-130) *)
  tcp_connect : val → val → bool * string;
  (** the two test requests and their tally (lines 133-154) *)
  http_requests : bool * string
}.

(** [str(e)] for a caught exception. *)
Definition exn_str (e : exn) : string :=
  match e with
  | ValueError msg => msg
  | KeyError key => "'" +:+ key +:+ "'"
  | TypeError msg => msg
  end.

Definition check_dns (env : Env) (config : val) : result (bool * string) :=
  try_except
    (if negb (truthy config) then mret (false, "Config parse error") else
     host ← getitem config "host";
     mret (dns_lookup env host))
    (λ e, mret (false, "DNS error: " +:+ exn_str e)).

Definition check_geo (env : Env) (config : val) : result (bool * string) :=
  try_except
    (if negb (truthy config) then mret (false, "Config parse error") else
     host ← getitem config "host";
     mret (geo_lookup env host))
    (λ e, mret (false, "Geo error: " +:+ exn_str e)).

Definition check_tcp (env : Env) (config : val) : result (bool * string) :=
  try_except
    (if negb (truthy config) then mret (false, "Config parse error") else
     host ← getitem config "host";
     port ← getitem config "port";
     mret (tcp_connect env host port))
    (λ e, mret (false, "TCP error: " +:+ exn_str e)).

Definition check_http (env : Env) (config : val) : result (bool * string) :=
  try_except
    (mret (http_requests env))
    (λ e, mret (false, "HTTP error: " +:+ exn_str e)).

(** *** [run_check] (lines 156-194)

    The progress line printed first goes to standard output and is not part
    of the report. *)

(** [{'success': ok, 'message': msg}] *)
Definition outcome (ok : bool) (msg : string) : val :=
  PDict [("success", PBool ok); ("message", PStr msg)].

Definition run_check (env : Env) (config : val) : result val :=
  server ←
    (if truthy config then
       host ← getitem config "host";
       port ← getitem config "port";
       host ← format host;
       port ← format port;
       mret (host +:+ ":" +:+ port)
     else mret "N/A");
  let results :=
    PDict [ ("success", PBool false);
            ("timestamp", PStr (now env));
            ("server", PStr server);
            ("checks", PDict []);
            ("overall_status", PStr "FAILED");
            ("success_rate", PStr "0/0") ] in
  if negb (truthy config) then
    results ← setitem2 results "checks" "config"
                (outcome false "VLESS config parse error");
    mret results
  else
    '(dns_ok, dns_msg) ← check_dns env config;
    results ← setitem2 results "checks" "dns" (outcome dns_ok dns_msg);
    '(geo_ok, geo_msg) ← check_geo env config;
    results ← setitem2 results "checks" "geo" (outcome geo_ok geo_msg);
    '(tcp_ok, tcp_msg) ← check_tcp env config;
    results ← setitem2 results "checks" "tcp" (outcome tcp_ok tcp_msg);
    '(http_ok, http_msg) ← check_http env config;
    results ← setitem2 results "checks" "http" (outcome http_ok http_msg);
    let critical_checks := [dns_ok; tcp_ok; http_ok] in
    results ← setitem results "success" (PBool (all critical_checks));
    success ← getitem results "success";
    results ← setitem results "overall_status"
                (PStr (if truthy success then "OK" else "FAILED"));
    let all_checks := [dns_ok; geo_ok; tcp_ok; http_ok] in
    let success_count := sum all_checks in
    results ← setitem results "success_rate"
                (PStr (str_of_int success_count +:+ "/" +:+ str_of_int (len all_checks)));
    mret results.

End VLESSChecker.


(** ** The input format, in the words of the specification

    [vless://<identity>@<host>[:<port>][?<key=value>&...][#<label>]]:
    the identity ends at the first [@], the label starts after the last [#]
    of what follows, the query starts after the first [?] of what is left,
    and the rest is the address part. *)

Module Format.
Import Py.

(** [s] is [a], one [sep], then [b], and that [sep] is the first in [s]. *)
Definition cut_at_first (sep : ascii) (s a b : string) : Prop :=
  s = a +:+ String sep b ∧ contains sep a = false.

(** [s] is [a], one [sep], then [b], and that [sep] is the last in [s]. *)
Definition cut_at_last (sep : ascii) (s a b : string) : Prop :=
  s = a +:+ String sep b ∧ contains sep b = false.

(** The four parts of a connection string; an absent label reads
    ["Unknown"], an absent query reads as the empty text. *)
Definition url_parts (s uuid address query label : string) : Prop :=
  ∃ rest server : string,
    s = "vless://" +:+ uuid +:+ "@" +:+ rest ∧ contains "@" uuid = false ∧
    (cut_at_last "#" rest server label ∨
     (contains "#" rest = false ∧ server = rest ∧ label = "Unknown")) ∧
    (cut_at_first "?" server address query ∨
     (contains "?" server = false ∧ address = server ∧ query = "")).

(** [sep.join(pieces)]. *)
Fixpoint join (sep : ascii) (pieces : list string) : string :=
  match pieces with
  | [] => ""
  | [piece] => piece
  | piece :: pieces' => piece +:+ String sep (join sep pieces')
  end.

(** The piece [key=value] of a query. *)
Definition pair (key value : string) : string := key +:+ "=" +:+ value.

(** A piece of a query that sets [key]. *)
Definition sets_key (key piece : string) : Prop :=
  ∃ value : string, piece = pair key value.

End Format.

(** ** Environments used to compare and to exercise runs of the checker *)

Module Envs.
Import VLESSChecker.

(** [env] with another answer from the geolocation probe. *)
Definition with_geo (env : Env) (geo : Py.val → bool * string) : Env :=
  {| now := now env;
     dns_lookup := dns_lookup env;
     geo_lookup := geo;
     tcp_connect := tcp_connect env;
     http_requests := http_requests env |}.

(** A network on which the four probes answer [dns], [geo], [tcp], [http]. *)
Definition answering (dns geo tcp http : bool) : Env :=
  {| now := "2026-01-01 00:00:00";
     dns_lookup := λ _, (dns, "dns");
     geo_lookup := λ _, (geo, "geo");
     tcp_connect := λ _ _, (tcp, "tcp");
     http_requests := (http, "http") |}.

End Envs.

(** ** More of the Python runtime: text and lists *)

Module PyText.
Import Py.

(** The newline character and the one-character text holding it. *)
Definition newline : ascii := "010"%char.
Definition nl : string := String newline "".

(** [s.upper()] on ASCII text: the letters [a]-[z] go to [A]-[Z], every
    other byte stays. *)
Definition upper_char (c : ascii) : ascii :=
  let n := nat_of_ascii c in
  if (97 <=? n)%nat && (n <=? 122)%nat then ascii_of_nat (n - 32) else c.

Fixpoint upper (s : string) : string :=
  match s with
  | "" => ""
  | String c s' => String (upper_char c) (upper s')
  end.

(** [sep.join(pieces)] for a separator of any length. *)
Fixpoint join_str (sep : string) (pieces : list string) : string :=
  match pieces with
  | [] => ""
  | [piece] => piece
  | piece :: pieces' => piece +:+ sep +:+ join_str sep pieces'
  end.

(** [xs[0]].  The [IndexError] of an empty list is filed under [KeyError],
    its sibling among the lookup errors. *)
Definition item0 {A} (xs : list A) : result A :=
  match xs with
  | x :: _ => Return x
  | [] => Raise (KeyError "list index out of range")
  end.

(** [o.items()]: the pairs of a dictionary in insertion order.  A value
    without the method raises [AttributeError], filed under [TypeError]. *)
Definition items (o : val) : result (list (string * val)) :=
  match o with
  | PDict d => Return d
  | _ => Raise (TypeError "object has no attribute 'items'")
  end.

(** The receiver of a [str] method: any other value raises
    [AttributeError], filed under [TypeError]. *)
Definition as_str (o : val) : result string :=
  match o with
  | PStr s => Return s
  | _ => Raise (TypeError "object has no attribute 'split'")
  end.

(** [os.getenv(name, default)], given what the variable holds, if set. *)
Definition getenv (var : option string) (dflt : string) : string :=
  default dflt var.

End PyText.

(** ** The markers and labels of the rendered texts, as the source has them *)

Module Marks.

Definition ok_mark : string := "âœ…".
Definition fail_mark : string := "âŒ".
Definition report_title : string := "ğŸ” <b>VLESS Check Report</b>".
Definition success_label : string := "ğŸ“Š <b>Success:</b> ".
Definition time_label : string := "ğŸ• <b>Time:</b> ".
Definition server_label : string := "ğŸŒ <b>Server:</b> ".
Definition bot_not_set : string := "âŒ BOT_TOKEN or CHAT_IDS not set".
Definition config_not_set : string := "âŒ VLESS_CONFIG not set".
Definition sent_label : string := "ğŸ“¤ Report sent to ".

End Marks.

(** ** Module-level configuration (lines 15-18) *)

Module Settings.
Import Py PyText.

(** Line 17: [CHAT_IDS], from what the variable of that name holds. *)
Definition chat_ids (var : option string) : list string :=
  match var with
  | Some value =>
      if truthy (PStr value) then split "," (getenv var "") else []
  | None => []
  end.

End Settings.

(** ** The HTTP probe in detail (lines 132-154) *)

Module Http.
Import Py PyText Marks.

(** What the network does to one [session.get(url)]: the request fails, or
    a response arrives with a status and a measured time (already rounded
    and printed, as the f-string shows it), after which leaving the
    [async with] block may still fail. *)
Inductive http_answer : Type :=
| Refused (e : exn)
| Answered (status : Z) (ms : string) (release : option exn).

Record HttpNet : Type := {
  (** entering [aiohttp.ClientSession(...)] *)
  session_enter : option exn;
  http_get : string → http_answer;
  (** leaving the session, after the loop *)
  session_exit : option exn
}.

Definition test_urls : list string :=
  ["https://www.google.com"; "https://httpbin.org/ip"].

Section Probe.

(** [urlparse(url).netloc], a library function. *)
Variable netloc : string → string.

(** Lines 139-149: one turn of the loop.  The entry of a response is
    appended inside the [try]; an exception after that reaches the bare
    [except], which appends a second entry. *)
Definition http_request (net : HttpNet) (results : list string) (url : string)
    : list string :=
  let failed := fail_mark +:+ " " +:+ netloc url +:+ " (failed)" in
  match http_get net url with
  | Refused _ => (results ++ [failed])%list
  | Answered status ms release =>
      let results :=
        if (status =? 200)%Z
        then (results ++ [ok_mark +:+ " " +:+ netloc url +:+ " (" +:+ ms +:+ "ms)"])%list
        else (results ++ [fail_mark +:+ " " +:+ netloc url +:+ " ("
                          +:+ str_of_int status +:+ ")"])%list in
      match release with
      | None => results
      | Some _ => (results ++ [failed])%list
      end
  end.

(** Lines 133-154: the answer of [check_http]. *)
Definition http_probe (net : HttpNet) : result (bool * string) :=
  try_except
    (match session_enter net with
     | Some e => Raise e
     | None =>
         let results := foldl (http_request net) [] test_urls in
         match session_exit net with
         | Some e => Raise e
         | None =>
             let success_count :=
               len (filter (λ r, startswith r ok_mark = true) results) in
             mret ((0 <? success_count)%Z,
                   "HTTP tests (" +:+ str_of_int success_count +:+ "/"
                   +:+ str_of_int (len results) +:+ "): "
                   +:+ join_str ", " results)
         end
     end)
    (λ e, mret (false, "HTTP error: " +:+ VLESSChecker.exn_str e)).

End Probe.

End Http.

(** ** The notification text (lines 216-230) *)

Module Rendering.
Import Py PyText Marks.

(** Lines 225-228: the line of one check, added to the report so far. *)
Definition check_line (report : string) (item : string * val) : result string :=
  let '(check_name, check_data) := item in
  success ← getitem check_data "success";
  let emoji := if truthy success then ok_mark else fail_mark in
  message ← getitem check_data "message";
  message ← as_str message;
  msg ← item0 (split newline message);
  mret (report +:+ emoji +:+ " <b>" +:+ upper check_name +:+ ":</b> "
        +:+ msg +:+ nl).

Definition format_report (results : val) : result string :=
  success ← getitem results "success";
  let status_emoji := if truthy success then ok_mark else fail_mark in
  let report := report_title +:+ nl +:+ nl in
  overall_status ← getitem results "overall_status";
  overall_status ← format overall_status;
  let report := report +:+ status_emoji +:+ " <b>Status:</b> "
                +:+ overall_status +:+ nl in
  success_rate ← getitem results "success_rate";
  success_rate ← format success_rate;
  let report := report +:+ success_label +:+ success_rate +:+ nl in
  timestamp ← getitem results "timestamp";
  timestamp ← format timestamp;
  let report := report +:+ time_label +:+ timestamp +:+ nl in
  server ← getitem results "server";
  server ← format server;
  let report := report +:+ server_label +:+ server +:+ nl +:+ nl in
  checks ← getitem results "checks";
  checks ← items checks;
  for_each check_line checks report.

(** The text before the first [sep] of [s]; all of [s] without one. *)
Definition first_piece (sep : ascii) (s : string) : string :=
  match cut_first sep s with
  | Some (a, _) => a
  | None => s
  end.

(** The line that [format_report] is to give a check, in the words of
    line 228. *)
Definition rendered_line (name : string) (answer : bool * string) : string :=
  (if answer.1 then ok_mark else fail_mark) +:+ " <b>" +:+ name +:+ ":</b> "
  +:+ first_piece newline answer.2 +:+ nl.

End Rendering.

(** ** Sending the report (lines 196-214 and 232-255) *)

Module Telegram.
Import Py PyText Marks Rendering.

(** What the service answers to a POST of [data] to [url]: a status, or an
    exception of the HTTP client.  The first argument is the list of
    recipients contacted before, so that the answer may change from one
    call to the next. *)
Definition Post : Type := list string → string → val → result Z.

(** [TelegramClient(token).send_message(chat_id, text)], lines 201-214. *)
Definition send_message (post : string → val → result Z)
    (token chat_id text : string) : result bool :=
  try_except
    (let base_url := "https://api.telegram.org/bot" +:+ token in
     let url := base_url +:+ "/sendMessage" in
     let data := PDict [ ("chat_id", PStr chat_id);
                         ("text", PStr text);
                         ("parse_mode", PStr "HTML") ] in
     status ← post url data;
     mret (status =? 200)%Z)
    (λ _, mret false).

Section Send.

(** The builtin [int] on a [str], as for [parse_config]. *)
Variable int : string → result Z.
(** [str.strip()], a builtin whose white space follows the interpreter's
    Unicode tables. *)
Variable strip : string → string.

(** Lines 248-253: one turn of the loop over the recipients.  The state is
    [success_count] and the recipients contacted so far.  The pause after
    each send is a matter of time only. *)
Definition deliver_step (post : Post) (token report : string)
    (state : Z * list string) (chat_id : string) : result (Z * list string) :=
  let '(success_count, contacted) := state in
  let chat_id := strip chat_id in
  if truthy (PStr chat_id) then
    sent ← send_message (post contacted) token chat_id report;
    mret (if sent : bool then success_count + 1 else success_count,
          (contacted ++ [chat_id])%list)
  else mret (success_count, contacted).

(** What a run leaves behind: who was contacted, how many sends succeeded,
    and the line printed last. *)
Record Delivery : Type := {
  contacted : list string;
  delivered : Z;
  printed : string
}.

Definition send_telegram_reports (env : VLESSChecker.Env) (post : Post)
    (BOT_TOKEN VLESS_CONFIG : string) (CHAT_IDS : list string) : result Delivery :=
  if negb (truthy (PStr BOT_TOKEN)) || match CHAT_IDS with [] => true | _ => false end
  then mret {| contacted := []; delivered := 0; printed := bot_not_set |}
  else if negb (truthy (PStr VLESS_CONFIG))
  then mret {| contacted := []; delivered := 0; printed := config_not_set |}
  else
    config ← VLESSChecker.init int VLESS_CONFIG;
    results ← VLESSChecker.run_check env config;
    report ← format_report results;
    '(success_count, contacted) ←
      for_each (deliver_step post BOT_TOKEN report) CHAT_IDS (0, []);
    mret {| contacted := contacted;
            delivered := success_count;
            printed := sent_label +:+ str_of_int success_count +:+ "/"
                       +:+ str_of_int (len CHAT_IDS) +:+ " chats" |}.

End Send.

End Telegram.

(** ** Connection strings put together from their parts *)

Module Assembly.
Import Py.

(** [vless://<identity>@<host>[:<port>][?<query>][#<label>]] *)
Definition assemble (uuid host : string) (port query label : option string)
    : string :=
  "vless://" +:+ uuid +:+ "@" +:+ host
  +:+ match port with Some p => ":" +:+ p | None => "" end
  +:+ match query with Some q => "?" +:+ q | None => "" end
  +:+ match label with Some l => "#" +:+ l | None => "" end.

(** Every character of [s] passes the test [P]. *)
Fixpoint all_chars (P : ascii → bool) (s : string) : bool :=
  match s with
  | "" => true
  | String c s' => P c && all_chars P s'
  end.

Definition is_digit (c : ascii) : bool :=
  match Ascii.is_nat c with Some _ => true | None => false end.

(** A character that a printed integer can hold. *)
Definition is_digit_or_minus (c : ascii) : bool :=
  is_digit c || Ascii.eqb c "-".

End Assembly.

Import Py VLESSChecker Format Envs.
Import PyText Marks Settings Http Rendering Telegram Assembly.

(** ** Strings: searching and cutting *)

Lemma app_cons (c : ascii) (a b : string) : String c a +:+ b = String c (a +:+ b).
Proof. reflexivity. Qed.

Lemma app_empty_l (a : string) : "" +:+ a = a.
Proof. reflexivity. Qed.

(** Push the constructors of an appended text outwards, then use the
    equations between texts that result. *)
Ltac str_eq := rewrite ?app_empty_l, ?app_cons in *; simplify_eq/=.

Section Strings.
Implicit Types (sep c : ascii) (s a b : string).

Lemma contains_cons sep c s :
  contains sep (String c s) = Ascii.eqb c sep || contains sep s.
Proof. simpl. by destruct (Ascii.eqb c sep). Qed.

Lemma contains_app sep a b :
  contains sep (a +:+ b) = contains sep a || contains sep b.
Proof.
  induction a as [|c a IH]; [done|].
  rewrite app_cons, !contains_cons, IH. by destruct (Ascii.eqb c sep).
Qed.

Lemma contains_app_sep sep a b : contains sep (a +:+ String sep b) = true.
Proof.
  rewrite contains_app, contains_cons, Ascii.eqb_refl.
  by destruct (contains sep a).
Qed.

Lemma cut_first_None sep s : cut_first sep s = None ↔ contains sep s = false.
Proof.
  induction s as [|c s IH]; simpl; [done|].
  destruct (Ascii.eqb c sep); [done|].
  destruct (cut_first sep s) as [[a b]|]; [|tauto].
  split; [done|]. intros H. by apply IH in H.
Qed.

Lemma cut_first_Some sep s a b :
  cut_first sep s = Some (a, b) ↔ cut_at_first sep s a b.
Proof.
  unfold cut_at_first. revert a. induction s as [|c s IH]; intros a; simpl.
  - split; [done|]. intros [H _]. destruct a; by str_eq.
  - destruct (Ascii.eqb_spec c sep) as [->|Hne].
    + split.
      * intros [= <- <-]. done.
      * intros [H Ha]. destruct a as [|c' a]; str_eq; [done|].
        by rewrite Ascii.eqb_refl in Ha.
    + specialize (IH (match a with String _ a' => a' | "" => "" end)).
      destruct (cut_first sep s) as [[a' b']|].
      * split.
        -- intros [= <- <-]. destruct (proj1 IH) as [-> Ha']; [done|].
           split; [done|]. simpl. by rewrite (proj2 (Ascii.eqb_neq _ _) Hne).
        -- intros [H Ha]. destruct a as [|c' a]; str_eq.
           destruct (Ascii.eqb c' sep); [done|].
           destruct IH as [_ IH]. specialize (IH (conj eq_refl Ha)).
           by simplify_eq.
      * split; [done|]. intros [H Ha].
        destruct a as [|c' a]; str_eq.
        destruct (Ascii.eqb c' sep); [done|].
        destruct IH as [_ IH]. by specialize (IH (conj eq_refl Ha)).
Qed.

Lemma cut_last_None sep s : cut_last sep s = None ↔ contains sep s = false.
Proof.
  induction s as [|c s IH]; simpl; [done|].
  destruct (cut_last sep s) as [[a b]|].
  - split; [done|]. destruct (Ascii.eqb c sep); [done|].
    intros H. by apply IH in H.
  - destruct (Ascii.eqb c sep); [done|]. tauto.
Qed.

Lemma cut_last_Some sep s a b :
  cut_last sep s = Some (a, b) ↔ cut_at_last sep s a b.
Proof.
  unfold cut_at_last. revert a. induction s as [|c s IH]; intros a; simpl.
  - split; [done|]. intros [H _]. destruct a; by str_eq.
  - specialize (IH (match a with String _ a' => a' | "" => "" end)).
    destruct (cut_last sep s) as [[a' b']|] eqn:Hcut.
    + split.
      * intros [= <- <-]. by destruct (proj1 IH) as [-> Hb].
      * intros [H Hb]. destruct a as [|c' a]; str_eq.
        -- apply cut_last_None in Hb. congruence.
        -- destruct IH as [_ IH]. specialize (IH (conj eq_refl Hb)).
           by simplify_eq.
    + apply cut_last_None in Hcut.
      destruct (Ascii.eqb_spec c sep) as [->|Hne].
      * split.
        -- intros [= <- <-]. done.
        -- intros [H Hb]. destruct a as [|c' a]; str_eq; [done|].
           by rewrite contains_app_sep in Hcut.
      * split; [done|]. intros [H Hb].
        destruct a as [|c' a]; str_eq.
        by rewrite contains_app_sep in Hcut.
Qed.

End Strings.

(** ** The stages of the parser *)

Section Parser.
Context (int : string → result Z).
Implicit Types (sep c : ascii) (s a b uuid address query label : string).
Implicit Types (params : gmap string string).

Lemma unpack2_split1 sep s a b :
  cut_at_first sep s a b →
  contains sep s = true ∧ unpack2 (split1 sep s) = Return (a, b).
Proof.
  intros Hcut. split; [destruct Hcut as [-> _]; apply contains_app_sep|].
  unfold split1. by rewrite (proj2 (cut_first_Some _ _ _ _) Hcut).
Qed.

Lemma unpack2_rsplit1 sep s a b :
  cut_at_last sep s a b →
  contains sep s = true ∧ unpack2 (rsplit1 sep s) = Return (a, b).
Proof.
  intros Hcut. split; [destruct Hcut as [-> _]; apply contains_app_sep|].
  unfold rsplit1. by rewrite (proj2 (cut_last_Some _ _ _ _) Hcut).
Qed.

Lemma contains_cut_first sep s :
  contains sep s = true → ∃ a b, cut_at_first sep s a b.
Proof.
  intros Hs. destruct (cut_first sep s) as [[a b]|] eqn:Hcut.
  - exists a, b. by apply cut_first_Some.
  - apply cut_first_None in Hcut. congruence.
Qed.

Lemma contains_cut_last sep s :
  contains sep s = true → ∃ a b, cut_at_last sep s a b.
Proof.
  intros Hs. destruct (cut_last sep s) as [[a b]|] eqn:Hcut.
  - exists a, b. by apply cut_last_Some.
  - apply cut_last_None in Hcut. congruence.
Qed.

Lemma startswith_app s p : startswith s p = true → s = p +:+ slice_from (String.length p) s.
Proof.
  revert s. induction p as [|c p IH]; intros [|c' s]; simpl; try done.
  destruct (Ascii.eqb_spec c' c) as [->|]; [|done].
  intros H. by rewrite app_cons, <-IH.
Qed.

Lemma startswith_prefix p s : startswith (p +:+ s) p = true.
Proof.
  induction p as [|c p IH]; [by destruct s|].
  rewrite app_cons. simpl. by rewrite Ascii.eqb_refl.
Qed.

Lemma slice_from_prefix p s : slice_from (String.length p) (p +:+ s) = s.
Proof. induction p as [|c p IH]; [done|]. by rewrite app_cons. Qed.

(** The loop over the pieces of the query never raises: the cut is only
    unpacked where an [=] was found. *)
Lemma param_step_returns params param :
  param_step params param = Return (set_param params param).
Proof.
  unfold param_step, set_param, split1.
  destruct (cut_first "=" param) as [[key value]|] eqn:Hcut.
  - apply cut_first_Some in Hcut.
    by rewrite (proj1 (unpack2_split1 _ _ _ _ Hcut)).
  - apply cut_first_None in Hcut. by rewrite Hcut.
Qed.

Lemma for_each_param_step pieces params :
  for_each param_step pieces params = Return (foldl set_param params pieces).
Proof.
  revert params. induction pieces as [|piece pieces IH]; intros params; simpl.
  - done.
  - rewrite param_step_returns. simpl. apply IH.
Qed.

Lemma parse_params_returns query :
  ∃ params, parse_params query = Return params.
Proof.
  unfold parse_params. destruct (truthy _); [|by eexists].
  rewrite for_each_param_step. by eexists.
Qed.

(** What [split_port] gives on an address without and with a [:]. *)
Lemma split_port_no_colon address :
  contains ":" address = false → split_port int address = Return (address, 443).
Proof. unfold split_port. by intros ->. Qed.

Lemma split_port_colon address host port :
  cut_at_last ":" address host port →
  split_port int address = (z ← int port; mret (host, z)).
Proof.
  intros Hcut. unfold split_port.
  destruct (unpack2_rsplit1 _ _ _ _ Hcut) as [-> ->]. done.
Qed.

Lemma parse_config_no_scheme s :
  startswith s "vless://" = false → parse_config int s = Return PNone.
Proof. unfold parse_config. by intros ->. Qed.

Lemma parse_config_no_at s :
  contains "@" (slice_from 8 s) = false → parse_config int s = Return PNone.
Proof.
  unfold parse_config. intros ->. by destruct (startswith s "vless://").
Qed.

(** On a connection string of the documented form, the parser makes its
    cuts where the format puts them. *)
Lemma parse_config_url_parts s uuid address query label :
  url_parts s uuid address query label →
  parse_config int s = finish int uuid address query label.
Proof.
  intros (rest & server & -> & Huuid & Hlabel & Hquery).
  unfold parse_config, finish.
  rewrite startswith_prefix. simpl negb. cbv iota.
  change 8%nat with (String.length "vless://").
  rewrite ?slice_from_prefix, ?app_empty_l.
  destruct (unpack2_split1 "@" (uuid +:+ "@" +:+ rest) uuid rest) as [-> ->];
    [done|].
  simpl negb. cbv iota.
  assert ((if contains "#" rest then unpack2 (rsplit1 "#" rest)
           else mret (rest, "Unknown")) = Return (server, label)) as Hl.
  { destruct Hlabel as [Hcut|(-> & -> & ->)]; [|done].
    by destruct (unpack2_rsplit1 _ _ _ _ Hcut) as [-> ->]. }
  assert ((if contains "?" server then unpack2 (split1 "?" server)
           else mret (server, "")) = Return (address, query)) as Hq.
  { destruct Hquery as [Hcut|(-> & -> & ->)]; [|done].
    by destruct (unpack2_split1 _ _ _ _ Hcut) as [-> ->]. }
  cbn [mbind result_bind]. rewrite Hl. cbn [mbind result_bind]. by rewrite Hq.
Qed.

(** Every text that passes the two checks at the top of [parse_config] has
    the documented form. *)
Lemma url_parts_exist s :
  startswith s "vless://" = true → contains "@" (slice_from 8 s) = true →
  ∃ uuid address query label, url_parts s uuid address query label.
Proof.
  intros Hs Hat. apply startswith_app in Hs. simpl String.length in Hs.
  destruct (contains_cut_first _ _ Hat) as (uuid & rest & Hrest & Huuid).
  assert (∃ server label,
    cut_at_last "#" rest server label ∨
    (contains "#" rest = false ∧ server = rest ∧ label = "Unknown"))
    as (server & label & Hlabel).
  { destruct (contains "#" rest) eqn:Hc.
    - destruct (contains_cut_last _ _ Hc) as (server & label & ?). eauto.
    - exists rest, "Unknown". by right. }
  assert (∃ address query,
    cut_at_first "?" server address query ∨
    (contains "?" server = false ∧ address = server ∧ query = ""))
    as (address & query & Hquery).
  { destruct (contains "?" server) eqn:Hc.
    - destruct (contains_cut_first _ _ Hc) as (address & query & ?). eauto.
    - exists server, "". by right. }
  exists uuid, address, query, label, rest, server.
  split; [|done]. by rewrite Hs, Hrest at 1.
Qed.

(** The parts of a text are determined by it. *)
Lemma cut_at_first_unique sep s a b a' b' :
  cut_at_first sep s a b → cut_at_first sep s a' b' → a = a' ∧ b = b'.
Proof.
  intros H H'. apply cut_first_Some in H, H'. by simplify_eq.
Qed.

Lemma cut_at_last_unique sep s a b a' b' :
  cut_at_last sep s a b → cut_at_last sep s a' b' → a = a' ∧ b = b'.
Proof.
  intros H H'. apply cut_last_Some in H, H'. by simplify_eq.
Qed.

Lemma url_parts_unique s uuid address query label uuid' address' query' label' :
  url_parts s uuid address query label →
  url_parts s uuid' address' query' label' →
  uuid = uuid' ∧ address = address' ∧ query = query' ∧ label = label'.
Proof.
  intros (rest & server & -> & Huuid & Hlabel & Hquery)
         (rest' & server' & Hs & Huuid' & Hlabel' & Hquery').
  apply (inj (String.app "vless://")) in Hs.
  destruct (cut_at_first_unique "@" (uuid +:+ "@" +:+ rest) uuid rest uuid' rest')
    as [<- <-]; [done|by split|].
  assert (server = server' ∧ label = label') as [<- <-].
  { destruct Hlabel as [Hcut|(Hno & -> & ->)],
      Hlabel' as [Hcut'|(Hno' & -> & ->)]; [| | |done].
    - by apply (cut_at_last_unique "#" rest).
    - destruct (unpack2_rsplit1 _ _ _ _ Hcut). congruence.
    - destruct (unpack2_rsplit1 _ _ _ _ Hcut'). congruence. }
  assert (address = address' ∧ query = query') as [<- <-]; [|done].
  destruct Hquery as [Hcut|(Hno & -> & ->)],
    Hquery' as [Hcut'|(Hno' & -> & ->)]; [| | |done].
  - by apply (cut_at_first_unique "?" server).
  - destruct (unpack2_split1 _ _ _ _ Hcut). congruence.
  - destruct (unpack2_split1 _ _ _ _ Hcut'). congruence.
Qed.

(** [finish] returns [None] or a descriptor. *)
Lemma finish_cases uuid address query label :
  finish int uuid address query label = Return PNone ∨
  ∃ host port params,
    split_port int address = Return (host, port) ∧
    parse_params query = Return params ∧
    finish int uuid address query label =
      Return (descriptor uuid host port label params).
Proof.
  unfold finish. destruct (split_port int address) as [[host port]|e] eqn:Hp.
  - destruct (parse_params_returns query) as [params Hparams].
    right. exists host, port, params. by rewrite Hparams.
  - by left.
Qed.

(** The same for the whole parser. *)
Lemma parse_config_cases s :
  parse_config int s = Return PNone ∨
  ∃ uuid address query label host port params,
    url_parts s uuid address query label ∧
    split_port int address = Return (host, port) ∧
    parse_params query = Return params ∧
    parse_config int s = Return (descriptor uuid host port label params).
Proof.
  destruct (startswith s "vless://") eqn:Hs;
    [|left; by apply parse_config_no_scheme].
  destruct (contains "@" (slice_from 8 s)) eqn:Hat;
    [|left; by apply parse_config_no_at].
  destruct (url_parts_exist s Hs Hat) as (uuid & address & query & label & Hparts).
  rewrite (parse_config_url_parts _ _ _ _ _ Hparts).
  destruct (finish_cases uuid address query label)
    as [?|(host & port & params & ? & ? & ?)]; [by left|right].
  by exists uuid, address, query, label, host, port, params.
Qed.

End Parser.

(** ** The report builder *)

Section Report.
Implicit Types (env : Env) (config report : val).

(** A parsed descriptor is a non-empty dictionary, so [if not self.config]
    separates it from [None]. *)
Lemma truthy_descriptor uuid host port name params :
  truthy (descriptor uuid host port name params) = true.
Proof. reflexivity. Qed.

(** The run on a descriptor, written out.  None of the subscriptions and
    none of the formatted fields raise. *)
Lemma run_check_descriptor env uuid host port name params :
  let dns := dns_lookup env (PStr host) in
  let geo := geo_lookup env (PStr host) in
  let tcp := tcp_connect env (PStr host) (PInt port) in
  let http := http_requests env in
  let config := descriptor uuid host port name params in
  check_dns env config = Return dns ∧
  check_geo env config = Return geo ∧
  check_tcp env config = Return tcp ∧
  check_http env config = Return http ∧
  run_check env config =
    Return (PDict
      [ ("success", PBool (dns.1 && tcp.1 && http.1));
        ("timestamp", PStr (now env));
        ("server", PStr (host +:+ ":" +:+ str_of_int port));
        ("checks", PDict [ ("dns", outcome dns.1 dns.2);
                           ("geo", outcome geo.1 geo.2);
                           ("tcp", outcome tcp.1 tcp.2);
                           ("http", outcome http.1 http.2) ]);
        ("overall_status",
         PStr (if dns.1 && tcp.1 && http.1 then "OK" else "FAILED"));
        ("success_rate",
         PStr (str_of_int (sum [dns.1; geo.1; tcp.1; http.1]) +:+ "/" +:+ "4")) ]).
Proof.
  intros dns geo tcp http config. split_and!; [reflexivity..|].
  unfold config, run_check, check_dns, check_geo, check_tcp, check_http.
  rewrite truthy_descriptor. cbn -[str_of_int sum all String.append].
  fold dns geo tcp http.
  destruct dns as [dns_ok ?], geo as [geo_ok ?], tcp as [tcp_ok ?],
    http as [http_ok ?].
  cbn -[str_of_int sum String.append].
  by destruct dns_ok, tcp_ok, http_ok.
Qed.

(** The run without a descriptor, written out. *)
Lemma run_check_None env :
  run_check env PNone =
    Return (PDict
      [ ("success", PBool false);
        ("timestamp", PStr (now env));
        ("server", PStr "N/A");
        ("checks", PDict [("config", outcome false "VLESS config parse error")]);
        ("overall_status", PStr "FAILED");
        ("success_rate", PStr "0/0") ]).
Proof. reflexivity. Qed.

(** [sum] of four flags counts those that are set. *)
Lemma sum_counts (b1 b2 b3 b4 : bool) :
  sum [b1; b2; b3; b4] = Z.of_nat (List.length (filter Is_true [b1; b2; b3; b4])).
Proof. by destruct b1, b2, b3, b4. Qed.

End Report.

(** ** What the parser returns *)

Section Parsed.
Context (int : string → result Z).
Implicit Types (s uuid address query label host name : string) (config : val).

Lemma parsed_cases s config :
  parse_config int s = Return config →
  config = PNone ∨
  ∃ uuid host port name params, config = descriptor uuid host port name params.
Proof.
  intros Hs.
  destruct (parse_config_cases int s)
    as [H|(uuid & ? & ? & label & host & port & params & _ & _ & _ & H)];
    rewrite H in Hs; simplify_eq; eauto 10.
Qed.

Lemma parsed_descriptor s config :
  parse_config int s = Return config → config ≠ PNone →
  ∃ uuid host port name params, config = descriptor uuid host port name params.
Proof. intros Hs Hconfig. by destruct (parsed_cases s config Hs). Qed.

(** With the parts of the input known, a descriptor that comes back is the
    one built from them. *)
Lemma parsed_from_parts s config uuid address query label :
  url_parts s uuid address query label →
  parse_config int s = Return config → config ≠ PNone →
  ∃ host port params,
    split_port int address = Return (host, port) ∧
    parse_params query = Return params ∧
    config = descriptor uuid host port label params.
Proof.
  intros Hparts Hs Hconfig.
  rewrite (parse_config_url_parts int _ _ _ _ _ Hparts) in Hs.
  destruct (finish_cases int uuid address query label)
    as [H|(host & port & params & ? & ? & H)];
    rewrite H in Hs; simplify_eq; eauto 10.
Qed.

End Parsed.

(** ** The claims about the report builder *)

(** C1.  For a descriptor that was parsed (not [None]), the report's
    [success] is true exactly when the DNS, TCP and HTTP probes all
    succeeded; and whatever the Geo probe answers, [success] and
    [overall_status] stay the same. *)
Theorem success_iff_critical_probes (int : string → result Z)
    (env : Env) (s : string) (config : val) :
  init int s = Return config → config ≠ PNone →
  ∃ (report : val) (dns geo tcp http : bool * string) (ok : bool),
    check_dns env config = Return dns ∧
    check_geo env config = Return geo ∧
    check_tcp env config = Return tcp ∧
    check_http env config = Return http ∧
    run_check env config = Return report ∧
    getitem report "success" = Return (PBool ok) ∧
    (ok = true ↔ dns.1 = true ∧ tcp.1 = true ∧ http.1 = true) ∧
    ∀ geo' : val → bool * string,
      ∃ report' : val,
        run_check (with_geo env geo') config = Return report' ∧
        getitem report' "success" = getitem report "success" ∧
        getitem report' "overall_status" = getitem report "overall_status".
Proof.
  intros Hs Hconfig.
  destruct (parsed_descriptor int s config Hs Hconfig)
    as (uuid & host & port & name & params & ->).
  destruct (run_check_descriptor env uuid host port name params)
    as (Hdns & Hgeo & Htcp & Hhttp & Hrun).
  eexists _, _, _, _, _, _. split_and!; [done..| |].
  - rewrite !andb_true_iff. tauto.
  - intros geo'.
    destruct (run_check_descriptor (with_geo env geo') uuid host port name params)
      as (_ & _ & _ & _ & Hrun').
    eexists. split; [exact Hrun'|]. done.
Qed.

(** C3.  Without a descriptor the report has one check, [config], failed
    with the message "VLESS config parse error"; [overall_status] is
    "FAILED", [success_rate] is "0/0" and [success] is false. *)
Theorem null_descriptor_report (env : Env) :
  ∃ report : val,
    run_check env PNone = Return report ∧
    getitem report "checks" =
      Return (PDict [("config", PDict [("success", PBool false);
                                       ("message", PStr "VLESS config parse error")])]) ∧
    getitem report "overall_status" = Return (PStr "FAILED") ∧
    getitem report "success_rate" = Return (PStr "0/0") ∧
    getitem report "success" = Return (PBool false).
Proof. eexists. split; [apply run_check_None|]. done. Qed.

(** C7.  For a parsed descriptor, [success_rate] reads [k/4], where [k] is
    the number of probes among dns, geo, tcp and http that succeeded. *)
Theorem success_rate_counts_all_four (int : string → result Z)
    (env : Env) (s : string) (config : val) :
  init int s = Return config → config ≠ PNone →
  ∃ (report : val) (dns geo tcp http : bool * string),
    check_dns env config = Return dns ∧
    check_geo env config = Return geo ∧
    check_tcp env config = Return tcp ∧
    check_http env config = Return http ∧
    run_check env config = Return report ∧
    getitem report "success_rate" =
      Return (PStr (str_of_int
                      (Z.of_nat (List.length
                         (filter Is_true [dns.1; geo.1; tcp.1; http.1])))
                    +:+ "/" +:+ "4")).
Proof.
  intros Hs Hconfig.
  destruct (parsed_descriptor int s config Hs Hconfig)
    as (uuid & host & port & name & params & ->).
  destruct (run_check_descriptor env uuid host port name params)
    as (Hdns & Hgeo & Htcp & Hhttp & Hrun).
  eexists _, _, _, _, _. split_and!; [done..|].
  by rewrite <-sum_counts.
Qed.

(** C9.  Whatever the parser returned, the report has the six fields
    success, timestamp, server, checks, overall_status and success_rate,
    and [overall_status] is "OK" exactly when [success] is true. *)
Theorem report_fields_and_status (int : string → result Z)
    (env : Env) (s : string) (config : val) :
  init int s = Return config →
  ∃ (fields : list (string * val)) (ok : bool),
    run_check env config = Return (PDict fields) ∧
    keys fields = ["success"; "timestamp"; "server"; "checks";
                   "overall_status"; "success_rate"] ∧
    dict_get "success" fields = Some (PBool ok) ∧
    (dict_get "overall_status" fields = Some (PStr "OK") ↔ ok = true).
Proof.
  intros Hs.
  destruct (parsed_cases int s config Hs)
    as [->|(uuid & host & port & name & params & ->)].
  - eexists _, false. split; [apply run_check_None|]. by split_and!.
  - destruct (run_check_descriptor env uuid host port name params)
      as (_ & _ & _ & _ & Hrun).
    eexists _, _. split; [exact Hrun|]. split_and!; [done..|].
    simpl. destruct (_ && _); naive_solver.
Qed.

(** ** The claims about the parser *)

(** C2.  On every input text [parse_config] returns, and what it returns is
    [None] or a descriptor with its eight fields; no exception leaves it. *)
Theorem parse_config_total (int : string → result Z)
    (s : string) :
  ∃ config : val,
    parse_config int s = Return config ∧
    (config = PNone ∨
     ∃ (uuid host : string) (port : Z) (name security transport sni flow : string),
       config = PDict [ ("uuid", PStr uuid); ("host", PStr host);
                        ("port", PInt port); ("name", PStr name);
                        ("security", PStr security); ("type", PStr transport);
                        ("sni", PStr sni); ("flow", PStr flow) ]).
Proof.
  destruct (parse_config_cases int s)
    as [H|(uuid & ? & ? & label & host & port & params & _ & _ & _ & H)];
    rewrite H; eexists; (split; [done|]); [by left|right].
  by eexists _, _, _, _, _, _, _, _.
Qed.

(** C4, as the code has it.  With the parts of the input known: when the
    address part has no [:], the parse succeeds with port 443; and whenever
    the parse succeeds, the port is an integer, the one that [int] reads in
    the text after the last [:] of the address part.  Nothing makes it
    positive. *)
Theorem parsed_port_is_integer (int : string → result Z)
    (s uuid address query label : string) :
  url_parts s uuid address query label →
  (contains ":" address = false →
   ∃ config : val,
     parse_config int s = Return config ∧ config ≠ PNone ∧
     getitem config "port" = Return (PInt 443)) ∧
  (∀ config : val,
     parse_config int s = Return config → config ≠ PNone →
     ∃ port : Z,
       getitem config "port" = Return (PInt port) ∧
       ∀ host p : string, cut_at_last ":" address host p → int p = Return port).
Proof.
  intros Hparts. split.
  - intros Hcolon. rewrite (parse_config_url_parts int _ _ _ _ _ Hparts).
    unfold finish. rewrite (split_port_no_colon int _ Hcolon).
    destruct (parse_params_returns query) as [params ->].
    by eexists.
  - intros config Hs Hconfig.
    destruct (parsed_from_parts int _ _ _ _ _ _ Hparts Hs Hconfig)
      as (host & port & params & Hport & _ & ->).
    exists port. split; [done|]. intros host' p Hcut.
    rewrite (split_port_colon int _ _ _ Hcut) in Hport.
    destruct (int p); cbn in Hport; unfold mret, result_ret in Hport;
      by simplify_eq.
Qed.

(** C4 as stated fails: a port of 0 is accepted. *)
Lemma port_zero_is_accepted :
  ¬ (∀ (s : string) (config : val) (port : Z),
       parse_config ascii_int s = Return config →
       getitem config "port" = Return (PInt port) →
       0 < port).
Proof.
  intros H.
  specialize (H "vless://uuid@example.com:0" _ 0 eq_refl eq_refl). lia.
Qed.

(** C5, as the code has it.  A descriptor that comes back has all eight
    fields: seven texts and an integer port.  The host is whatever text the
    address part has before its port, and that text may be empty. *)
Theorem parsed_descriptor_has_all_fields (int : string → result Z)
    (s : string) (config : val) :
  parse_config int s = Return config → config ≠ PNone →
  ∃ (uuid host : string) (port : Z) (name security transport sni flow : string),
    config = PDict [ ("uuid", PStr uuid); ("host", PStr host);
                     ("port", PInt port); ("name", PStr name);
                     ("security", PStr security); ("type", PStr transport);
                     ("sni", PStr sni); ("flow", PStr flow) ].
Proof.
  intros Hs Hconfig.
  destruct (parsed_descriptor int s config Hs Hconfig)
    as (uuid & host & port & name & params & ->).
  by eexists _, _, _, _, _, _, _, _.
Qed.

(** C5 as stated fails: nothing after the [@] gives an empty host. *)
Lemma empty_host_is_accepted :
  ¬ (∀ (s : string) (config : val) (host : string),
       parse_config ascii_int s = Return config →
       getitem config "host" = Return (PStr host) →
       host ≠ "").
Proof.
  intros H. by apply (H "vless://uuid@" _ "" eq_refl eq_refl).
Qed.

(** C6.  When the address part has a [:] and the text after its last [:]
    is not an integer, the parse gives [None]; such is the port of
    [vless://uuid@host:notanumber]. *)
Theorem invalid_port_fails (int : string → result Z)
    (s uuid address query label host p : string) :
  url_parts s uuid address query label →
  cut_at_last ":" address host p →
  (∀ z : Z, int p ≠ Return z) →
  parse_config int s = Return PNone ∧
  parse_config ascii_int "vless://uuid@host:notanumber" = Return PNone.
Proof.
  intros Hparts Hcut Hint. split; [|done].
  rewrite (parse_config_url_parts int _ _ _ _ _ Hparts).
  unfold finish. rewrite (split_port_colon int _ _ _ Hcut).
  destruct (int p) as [z|e]; [by destruct (Hint z)|done].
Qed.

(** ** The label and the query *)

Section LabelAndQuery.
Implicit Types (s uuid rest server address query label key value piece : string).
Implicit Types (pieces : list string) (params : gmap string string).

(** The label and the server part fix the other two parts. *)
Lemma url_parts_of_rest uuid rest server label :
  contains "@" uuid = false →
  cut_at_last "#" rest server label ∨
    (contains "#" rest = false ∧ server = rest ∧ label = "Unknown") →
  ∃ address query,
    url_parts ("vless://" +:+ uuid +:+ "@" +:+ rest) uuid address query label.
Proof.
  intros Huuid Hlabel.
  assert (∃ address query,
    cut_at_first "?" server address query ∨
    (contains "?" server = false ∧ address = server ∧ query = ""))
    as (address & query & Hquery).
  { destruct (contains "?" server) eqn:Hc.
    - destruct (contains_cut_first _ _ Hc) as (address & query & ?). eauto.
    - exists server, "". by right. }
  by exists address, query, rest, server.
Qed.

(** [split] undoes [join] on pieces that are free of the separator. *)
Lemma split_no_sep sep piece :
  contains sep piece = false → split sep piece = [piece].
Proof.
  induction piece as [|c piece IH]; simpl; [done|].
  destruct (Ascii.eqb c sep); [done|]. intros H. by rewrite IH.
Qed.

Lemma split_app_sep sep piece s :
  contains sep piece = false →
  split sep (piece +:+ String sep s) = piece :: split sep s.
Proof.
  induction piece as [|c piece IH]; intros H.
  - rewrite app_empty_l. simpl. by rewrite Ascii.eqb_refl.
  - rewrite app_cons. simpl in *. destruct (Ascii.eqb c sep); [done|].
    by rewrite IH.
Qed.

Lemma split_join sep pieces :
  pieces ≠ [] → Forall (λ piece, contains sep piece = false) pieces →
  split sep (join sep pieces) = pieces.
Proof.
  induction pieces as [|piece [|piece' pieces] IH]; [done|..]; intros _ Hall.
  - apply split_no_sep. by inversion Hall.
  - inversion Hall as [|?? Hpiece Hrest]; subst.
    change (join sep (piece :: piece' :: pieces))
      with (piece +:+ String sep (join sep (piece' :: pieces))).
    rewrite split_app_sep by done. f_equal. by apply IH.
Qed.

(** The loop of [parse_params] over a query made of given pieces. *)
Lemma parse_params_join pieces :
  Forall (λ piece, contains "&" piece = false) pieces →
  parse_params (join "&" pieces) = Return (foldl set_param ∅ pieces).
Proof.
  intros Hall. destruct pieces as [|piece pieces]; [done|].
  unfold parse_params.
  destruct (truthy (PStr (join "&" (piece :: pieces)))) eqn:Hempty.
  - by rewrite split_join, for_each_param_step.
  - destruct pieces as [|piece' pieces].
    + simpl in *. by destruct piece.
    + change (join "&" (piece :: piece' :: pieces))
        with (piece +:+ String "&" (join "&" (piece' :: pieces))) in Hempty.
      destruct piece; by str_eq.
Qed.

Lemma set_param_pair key value params :
  contains "=" key = false →
  set_param params (pair key value) = <[key := value]> params.
Proof.
  intros Hkey. unfold set_param.
  by rewrite (proj2 (cut_first_Some "=" (pair key value) key value)).
Qed.

Lemma set_param_other key piece params :
  ¬ sets_key key piece → set_param params piece !! key = params !! key.
Proof.
  intros Hpiece. unfold set_param.
  destruct (cut_first "=" piece) as [[key' value]|] eqn:Hcut; [|done].
  apply cut_first_Some in Hcut as [-> _].
  apply lookup_insert_ne. intros ->. apply Hpiece. by exists value.
Qed.

Lemma foldl_set_param_other key pieces params :
  Forall (λ piece, ¬ sets_key key piece) pieces →
  foldl set_param params pieces !! key = params !! key.
Proof.
  intros Hall. revert params.
  induction Hall as [|piece pieces Hpiece _ IH]; intros params; simpl; [done|].
  by rewrite IH, set_param_other.
Qed.

(** After the loop, the key of a pair that no later piece sets again holds
    the value of that pair. *)
Lemma foldl_set_param_last key value before after params :
  contains "=" key = false →
  Forall (λ piece, ¬ sets_key key piece) after →
  foldl set_param params (before ++ pair key value :: after) !! key = Some value.
Proof.
  intros Hkey Hafter. rewrite foldl_app. simpl.
  rewrite foldl_set_param_other by done.
  rewrite set_param_pair by done. apply lookup_insert_eq.
Qed.

(** A piece without [=] leaves [params] as it was. *)
Lemma foldl_set_param_filter pieces params :
  foldl set_param params (filter (λ piece, contains "=" piece = true) pieces) =
  foldl set_param params pieces.
Proof.
  revert params. induction pieces as [|piece pieces IH]; intros params; [done|].
  rewrite filter_cons. case_decide as Hpiece; simpl; [done|].
  rewrite IH. f_equal. unfold set_param.
  apply not_true_is_false, cut_first_None in Hpiece. by rewrite Hpiece.
Qed.

End LabelAndQuery.

(** C8.  The label is the text after the last [#] of what follows the
    first [@], however many [#] there are; without a [#] there it is
    "Unknown"; [vless://uuid@example.com#A#B] has the label "B". *)
Theorem label_is_after_last_hash (int : string → result Z)
    (uuid rest : string) (config : val) :
  contains "@" uuid = false →
  parse_config int ("vless://" +:+ uuid +:+ "@" +:+ rest) = Return config →
  config ≠ PNone →
  (∀ server label : string,
     rest = server +:+ "#" +:+ label → contains "#" label = false →
     getitem config "name" = Return (PStr label)) ∧
  (contains "#" rest = false → getitem config "name" = Return (PStr "Unknown")) ∧
  (∃ config' : val,
     parse_config int "vless://uuid@example.com#A#B" = Return config' ∧
     getitem config' "name" = Return (PStr "B")).
Proof.
  intros Huuid Hs Hconfig.
  assert (∀ server label,
    cut_at_last "#" rest server label ∨
      (contains "#" rest = false ∧ server = rest ∧ label = "Unknown") →
    getitem config "name" = Return (PStr label)) as Hname.
  { intros server label Hlabel.
    destruct (url_parts_of_rest uuid rest server label Huuid Hlabel)
      as (address & query & Hparts).
    destruct (parsed_from_parts int _ _ _ _ _ _ Hparts Hs Hconfig)
      as (host & port & params & _ & _ & ->).
    done. }
  split_and!.
  - intros server label -> Hlabel. apply (Hname server). by left.
  - intros Hrest. apply (Hname rest). by right.
  - by eexists.
Qed.

(** C10.  In the query, a pair [key=value] that no later piece sets again
    gives the descriptor its [key], whatever earlier pieces said; and the
    pieces without [=] can be taken out of the query without changing what
    is read from it. *)
Theorem last_pair_wins (int : string → result Z)
    (s uuid address query label : string)
    (before after : list string) (key value : string) (config : val) :
  url_parts s uuid address query label →
  query = join "&" (before ++ pair key value :: after) →
  Forall (λ piece, contains "&" piece = false) (before ++ pair key value :: after) →
  Forall (λ piece, ¬ sets_key key piece) after →
  key ∈ ["security"; "type"; "sni"; "flow"] →
  parse_config int s = Return config → config ≠ PNone →
  getitem config key = Return (PStr value) ∧
  (∀ pieces : list string,
     Forall (λ piece, contains "&" piece = false) pieces →
     parse_params (join "&" pieces) =
     parse_params (join "&" (filter (λ piece, contains "=" piece = true) pieces))).
Proof.
  intros Hparts -> Hpieces Hafter Hkey Hs Hconfig. split.
  - destruct (parsed_from_parts int _ _ _ _ _ _ Hparts Hs Hconfig)
      as (host & port & params & _ & Hparams & ->).
    rewrite parse_params_join in Hparams by done.
    injection Hparams as <-.
    assert (contains "=" key = false) as Hnoeq.
    { set_unfold in Hkey. by destruct Hkey as [->|[->|[->|[->|[]]]]]. }
    pose proof (foldl_set_param_last key value before after ∅ Hnoeq Hafter) as Hget.
    set_unfold in Hkey.
    destruct Hkey as [->|[->|[->|[->|[]]]]]; simpl; by rewrite Hget.
  - intros pieces Hall.
    rewrite !parse_params_join; [by rewrite foldl_set_param_filter|..|done].
    apply Forall_forall. intros piece [_ Hpiece]%list_elem_of_filter.
    revert piece Hpiece. by apply Forall_forall.
Qed.

(** ** The parser on the inputs the specification lists *)

Example parse_full_example :
  parse_config ascii_int
    "vless://uuid@example.com:8443?security=tls&type=ws&sni=s.example#MyNode" =
  Return (PDict [ ("uuid", PStr "uuid"); ("host", PStr "example.com");
                  ("port", PInt 8443); ("name", PStr "MyNode");
                  ("security", PStr "tls"); ("type", PStr "ws");
                  ("sni", PStr "s.example"); ("flow", PStr "") ]).
Proof. vm_compute. reflexivity. Qed.

Example parse_not_a_vless_string :
  parse_config ascii_int "not-a-vless-string" = Return PNone.
Proof. reflexivity. Qed.

Example parse_two_hashes :
  parse_config ascii_int "vless://uuid@example.com#A#B" =
  Return (descriptor "uuid" "example.com#A" 443 "B" ∅).
Proof. reflexivity. Qed.

Example parse_signed_port :
  parse_config ascii_int "vless://uuid@example.com: -1_0 " =
  Return (descriptor "uuid" "example.com" (-10) "Unknown" ∅).
Proof. reflexivity. Qed.

(** ** The claims at concrete inputs *)

(** C1 on a descriptor with a port and a network where only the Geo probe
    fails: the report succeeds. *)
Lemma success_iff_critical_probes_witness :
  let env := answering true false true true in
  let s := "vless://uuid@example.com:8443" in
  let config := descriptor "uuid" "example.com" 8443 "Unknown" ∅ in
  init ascii_int s = Return config ∧ config ≠ PNone ∧
  ∃ (report : val) (dns geo tcp http : bool * string) (ok : bool),
    check_dns env config = Return dns ∧
    check_geo env config = Return geo ∧
    check_tcp env config = Return tcp ∧
    check_http env config = Return http ∧
    run_check env config = Return report ∧
    getitem report "success" = Return (PBool ok) ∧
    (ok = true ↔ dns.1 = true ∧ tcp.1 = true ∧ http.1 = true) ∧
    ∀ geo' : val → bool * string,
      ∃ report' : val,
        run_check (with_geo env geo') config = Return report' ∧
        getitem report' "success" = getitem report "success" ∧
        getitem report' "overall_status" = getitem report "overall_status".
Proof.
  intros env s config. split; [reflexivity|]. split; [discriminate|].
  apply (success_iff_critical_probes ascii_int env s config); [reflexivity|discriminate].
Defined.

(** C7 on the same descriptor and network. *)
Lemma success_rate_counts_all_four_witness :
  let env := answering true false true true in
  let s := "vless://uuid@example.com:8443" in
  let config := descriptor "uuid" "example.com" 8443 "Unknown" ∅ in
  init ascii_int s = Return config ∧ config ≠ PNone ∧
  ∃ (report : val) (dns geo tcp http : bool * string),
    check_dns env config = Return dns ∧
    check_geo env config = Return geo ∧
    check_tcp env config = Return tcp ∧
    check_http env config = Return http ∧
    run_check env config = Return report ∧
    getitem report "success_rate" =
      Return (PStr (str_of_int
                      (Z.of_nat (List.length
                         (filter Is_true [dns.1; geo.1; tcp.1; http.1])))
                    +:+ "/" +:+ "4")).
Proof.
  intros env s config. split; [reflexivity|]. split; [discriminate|].
  apply (success_rate_counts_all_four ascii_int env s config); [reflexivity|discriminate].
Defined.

(** C9 on a text that is not a connection string. *)
Lemma report_fields_and_status_witness :
  let env := answering true true true true in
  let s := "not-a-vless-string" in
  init ascii_int s = Return PNone ∧
  ∃ (fields : list (string * val)) (ok : bool),
    run_check env PNone = Return (PDict fields) ∧
    keys fields = ["success"; "timestamp"; "server"; "checks";
                   "overall_status"; "success_rate"] ∧
    dict_get "success" fields = Some (PBool ok) ∧
    (dict_get "overall_status" fields = Some (PStr "OK") ↔ ok = true).
Proof.
  intros env s. split; [reflexivity|].
  apply (report_fields_and_status ascii_int env s PNone); reflexivity.
Defined.

(** C4 on an input without a port. *)
Lemma parsed_port_is_integer_witness :
  let s := "vless://uuid@example.com" in
  url_parts s "uuid" "example.com" "" "Unknown" ∧
  (contains ":" "example.com" = false →
   ∃ config : val,
     parse_config ascii_int s = Return config ∧ config ≠ PNone ∧
     getitem config "port" = Return (PInt 443)) ∧
  (∀ config : val,
     parse_config ascii_int s = Return config → config ≠ PNone →
     ∃ port : Z,
       getitem config "port" = Return (PInt port) ∧
       ∀ host p : string,
         cut_at_last ":" "example.com" host p → ascii_int p = Return port).
Proof.
  intros s.
  assert (url_parts s "uuid" "example.com" "" "Unknown") as Hparts.
  { exists "example.com", "example.com".
    split; [reflexivity|]. split; [reflexivity|].
    split; right; repeat split; reflexivity. }
  split; [exact Hparts|].
  apply (parsed_port_is_integer ascii_int s "uuid" "example.com" "" "Unknown" Hparts).
Defined.

(** C5 on the input of the specification's example. *)
Lemma parsed_descriptor_has_all_fields_witness :
  let s := "vless://uuid@example.com:8443?security=tls&type=ws&sni=s.example#MyNode" in
  let config :=
    PDict [ ("uuid", PStr "uuid"); ("host", PStr "example.com");
            ("port", PInt 8443); ("name", PStr "MyNode");
            ("security", PStr "tls"); ("type", PStr "ws");
            ("sni", PStr "s.example"); ("flow", PStr "") ] in
  parse_config ascii_int s = Return config ∧ config ≠ PNone ∧
  ∃ (uuid host : string) (port : Z) (name security transport sni flow : string),
    config = PDict [ ("uuid", PStr uuid); ("host", PStr host);
                     ("port", PInt port); ("name", PStr name);
                     ("security", PStr security); ("type", PStr transport);
                     ("sni", PStr sni); ("flow", PStr flow) ].
Proof.
  intros s config. split; [vm_compute; reflexivity|]. split; [discriminate|].
  apply (parsed_descriptor_has_all_fields ascii_int s config);
    [vm_compute; reflexivity|discriminate].
Defined.

(** C6 on the input named in the claim. *)
Lemma invalid_port_fails_witness :
  let s := "vless://uuid@host:notanumber" in
  url_parts s "uuid" "host:notanumber" "" "Unknown" ∧
  cut_at_last ":" "host:notanumber" "host" "notanumber" ∧
  (∀ z : Z, ascii_int "notanumber" ≠ Return z) ∧
  parse_config ascii_int s = Return PNone ∧
  parse_config ascii_int "vless://uuid@host:notanumber" = Return PNone.
Proof.
  intros s.
  assert (url_parts s "uuid" "host:notanumber" "" "Unknown") as Hparts.
  { exists "host:notanumber", "host:notanumber".
    split; [reflexivity|]. split; [reflexivity|].
    split; right; repeat split; reflexivity. }
  assert (cut_at_last ":" "host:notanumber" "host" "notanumber") as Hcut.
  { split; reflexivity. }
  assert (∀ z : Z, ascii_int "notanumber" ≠ Return z) as Hint.
  { intros z. vm_compute. discriminate. }
  split; [exact Hparts|]. split; [exact Hcut|]. split; [exact Hint|].
  apply (invalid_port_fails ascii_int s "uuid" "host:notanumber" "" "Unknown"
           "host" "notanumber" Hparts Hcut Hint).
Defined.

(** C8 on the input named in the claim. *)
Lemma label_is_after_last_hash_witness :
  let rest := "example.com#A#B" in
  let config := descriptor "uuid" "example.com#A" 443 "B" ∅ in
  contains "@" "uuid" = false ∧
  parse_config ascii_int ("vless://" +:+ "uuid" +:+ "@" +:+ rest) = Return config ∧
  config ≠ PNone ∧
  (∀ server label : string,
     rest = server +:+ "#" +:+ label → contains "#" label = false →
     getitem config "name" = Return (PStr label)) ∧
  (contains "#" rest = false → getitem config "name" = Return (PStr "Unknown")) ∧
  (∃ config' : val,
     parse_config ascii_int "vless://uuid@example.com#A#B" = Return config' ∧
     getitem config' "name" = Return (PStr "B")).
Proof.
  intros rest config. split; [reflexivity|]. split; [reflexivity|].
  split; [discriminate|].
  apply (label_is_after_last_hash ascii_int "uuid" rest config);
    [reflexivity|reflexivity|discriminate].
Defined.

(** C10 on a query that sets [security] twice, with a piece without [=]
    between the two and another key after them. *)
Lemma last_pair_wins_witness :
  let s := "vless://uuid@example.com?security=tls&junk&security=reality&flow=x" in
  let query := "security=tls&junk&security=reality&flow=x" in
  let before := ["security=tls"; "junk"] in
  let after := ["flow=x"] in
  let config :=
    PDict [ ("uuid", PStr "uuid"); ("host", PStr "example.com");
            ("port", PInt 443); ("name", PStr "Unknown");
            ("security", PStr "reality"); ("type", PStr "tcp");
            ("sni", PStr ""); ("flow", PStr "x") ] in
  url_parts s "uuid" "example.com" query "Unknown" ∧
  query = join "&" (before ++ pair "security" "reality" :: after) ∧
  Forall (λ piece, contains "&" piece = false)
    (before ++ pair "security" "reality" :: after) ∧
  Forall (λ piece, ¬ sets_key "security" piece) after ∧
  "security" ∈ ["security"; "type"; "sni"; "flow"] ∧
  parse_config ascii_int s = Return config ∧ config ≠ PNone ∧
  getitem config "security" = Return (PStr "reality") ∧
  (∀ pieces : list string,
     Forall (λ piece, contains "&" piece = false) pieces →
     parse_params (join "&" pieces) =
     parse_params (join "&" (filter (λ piece, contains "=" piece = true) pieces))).
Proof.
  intros s query before after config.
  assert (url_parts s "uuid" "example.com" query "Unknown") as Hparts.
  { exists "example.com?security=tls&junk&security=reality&flow=x",
      "example.com?security=tls&junk&security=reality&flow=x".
    split; [reflexivity|]. split; [reflexivity|].
    split; [right; repeat split; reflexivity|].
    left. split; reflexivity. }
  assert (Forall (λ piece, contains "&" piece = false)
            (before ++ pair "security" "reality" :: after)) as Hpieces.
  { repeat constructor. }
  assert (Forall (λ piece, ¬ sets_key "security" piece) after) as Hafter.
  { constructor; [|constructor]. intros [value Hvalue]. discriminate Hvalue. }
  assert ("security" ∈ ["security"; "type"; "sni"; "flow"]) as Hkey.
  { constructor. }
  assert (parse_config ascii_int s = Return config) as Hs.
  { vm_compute. reflexivity. }
  split; [exact Hparts|]. split; [reflexivity|]. split; [exact Hpieces|].
  split; [exact Hafter|]. split; [exact Hkey|]. split; [exact Hs|].
  split; [discriminate|].
  apply (last_pair_wins ascii_int s "uuid" "example.com" query "Unknown" before after
           "security" "reality" config Hparts eq_refl Hpieces Hafter Hkey Hs).
  discriminate.
Defined.

(** ** Further properties of the parser *)

Section ParserMore.
Context (int : string → result Z).
Implicit Types (s uuid address query label host p key piece : string).
Implicit Types (params : gmap string string).

Lemma app_empty_r s : s +:+ "" = s.
Proof. induction s as [|c s IH]; [done|]. by rewrite app_cons, IH. Qed.

Lemma str_app_assoc a b c : (a +:+ b) +:+ c = a +:+ (b +:+ c).
Proof. induction a as [|x a IH]; [done|]. by rewrite !app_cons, IH. Qed.

(** [finish] fails exactly on a port text that [int] refuses. *)
Lemma finish_None_iff uuid address query label :
  finish int uuid address query label = Return PNone ↔
  ∃ host p e, cut_at_last ":" address host p ∧ int p = Raise e.
Proof.
  unfold finish. destruct (parse_params_returns query) as [params Hparams].
  destruct (contains ":" address) eqn:Hcolon.
  - destruct (contains_cut_last _ _ Hcolon) as (host & p & Hcut).
    rewrite (split_port_colon int _ _ _ Hcut).
    destruct (int p) as [z|e] eqn:Hint; cbn.
    + rewrite Hparams. split; [done|]. intros (host' & p' & e & Hcut' & He).
      destruct (cut_at_last_unique _ _ _ _ _ _ Hcut Hcut') as [_ <-]. congruence.
    + split; [|done]. intros _. by exists host, p, e.
  - rewrite (split_port_no_colon int _ Hcolon). cbn. rewrite Hparams.
    split; [done|]. intros (host & p & e & Hcut & _).
    destruct (unpack2_rsplit1 _ _ _ _ Hcut). congruence.
Qed.

Lemma parse_params_unset query params key :
  parse_params query = Return params →
  Forall (λ piece, ¬ sets_key key piece) (split "&" query) →
  params !! key = None.
Proof.
  unfold parse_params. destruct (truthy _); intros Hparams Hunset.
  - rewrite for_each_param_step in Hparams. injection Hparams as <-.
    by rewrite foldl_set_param_other.
  - by injection Hparams as <-.
Qed.

End ParserMore.

(** X1.  The parser gives [None] in exactly three cases: the text does not
    start with [vless://]; what follows the scheme has no [@]; or the
    address part has a [:] and [int] raises on the text after its last
    [:].  The query and the label never make it fail. *)
Theorem parse_fails_iff (int : string → result Z) (s : string) :
  parse_config int s = Return PNone ↔
  startswith s "vless://" = false ∨
  contains "@" (slice_from 8 s) = false ∨
  ∃ (uuid address query label host p : string) (e : exn),
    url_parts s uuid address query label ∧
    cut_at_last ":" address host p ∧ int p = Raise e.
Proof.
  split.
  - intros Hs.
    destruct (startswith s "vless://") eqn:Hscheme; [|by left].
    destruct (contains "@" (slice_from 8 s)) eqn:Hat; [|by right; left].
    right; right.
    destruct (url_parts_exist s Hscheme Hat)
      as (uuid & address & query & label & Hparts).
    rewrite (parse_config_url_parts int _ _ _ _ _ Hparts) in Hs.
    apply finish_None_iff in Hs as (host & p & e & Hcut & He).
    by exists uuid, address, query, label, host, p, e.
  - intros [Hscheme|[Hat|(uuid & address & query & label & host & p & e
                           & Hparts & Hcut & He)]].
    + by apply parse_config_no_scheme.
    + by apply parse_config_no_at.
    + rewrite (parse_config_url_parts int _ _ _ _ _ Hparts).
      apply finish_None_iff. by exists host, p, e.
Qed.

(** X3.  A key among security, type, sni and flow that no piece of the
    query sets reads its fallback in the descriptor: none, tcp, and the
    empty text for the last two. *)
Theorem unset_keys_read_defaults (int : string → result Z)
    (s uuid address query label key fallback : string) (config : val) :
  url_parts s uuid address query label →
  parse_config int s = Return config → config ≠ PNone →
  (key, fallback) ∈ [("security", "none"); ("type", "tcp"); ("sni", ""); ("flow", "")] →
  Forall (λ piece, ¬ sets_key key piece) (split "&" query) →
  getitem config key = Return (PStr fallback).
Proof.
  intros Hparts Hs Hconfig Hkey Hunset.
  destruct (parsed_from_parts int _ _ _ _ _ _ Hparts Hs Hconfig)
    as (host & port & params & _ & Hparams & ->).
  pose proof (parse_params_unset _ _ _ Hparams Hunset) as Hnone.
  set_unfold in Hkey.
  destruct Hkey as [[= -> ->]|[[= -> ->]|[[= -> ->]|[[= -> ->]|[]]]]];
    simpl; by rewrite Hnone.
Qed.

(** ** Connection strings of the documented form *)

Section Assembled.
Context (int : string → result Z).
Implicit Types (uuid host : string) (port query label : option string).

(** Decide an occurrence test on a text put together by [+:+]. *)
Ltac contains_app :=
  repeat (rewrite ?contains_app, ?app_cons, ?app_empty_l, ?contains_cons;
          simpl);
  repeat match goal with H : contains _ _ = false |- _ => rewrite H end;
  try done.

Lemma url_parts_assemble uuid host port query label :
  contains "@" uuid = false →
  contains "?" host = false → contains "#" host = false →
  contains "?" (default "" port) = false →
  contains "#" (default "" port) = false →
  contains "#" (default "" query) = false →
  contains "#" (default "" label) = false →
  url_parts (assemble uuid host port query label) uuid
    (host +:+ match port with Some p => ":" +:+ p | None => "" end)
    (default "" query) (default "Unknown" label).
Proof.
  intros Huuid Hhost1 Hhost2 Hport1 Hport2 Hquery Hlabel.
  exists (host
          +:+ match port with Some p => ":" +:+ p | None => "" end
          +:+ match query with Some q => "?" +:+ q | None => "" end
          +:+ match label with Some l => "#" +:+ l | None => "" end),
         (host
          +:+ match port with Some p => ":" +:+ p | None => "" end
          +:+ match query with Some q => "?" +:+ q | None => "" end).
  split; [done|]. split; [done|]. split.
  - destruct label as [l|]; simpl in *.
    + left. split; [|done]. by rewrite !str_app_assoc.
    + right. rewrite app_empty_r. split; [|done].
      destruct port, query; simpl in *; contains_app.
  - destruct query as [q|]; simpl in *.
    + left. split; [by rewrite !str_app_assoc|].
      destruct port; simpl in *; contains_app.
    + right. rewrite app_empty_r. split; [|done].
      destruct port; simpl in *; contains_app.
Qed.

End Assembled.

(** X2.  A connection string put together from an identity without [@], a
    host and a port text without [:], [?] and [#], a query and a label
    without [#] gives these parts back: identity, host and label as they
    were written, the port that [int] reads (443 without one), "Unknown"
    without a label, and the parameters of the query. *)
Theorem parse_assembled (int : string → result Z) (uuid host : string)
    (port query label : option string) (z : Z) :
  contains "@" uuid = false →
  contains ":" host = false → contains "?" host = false →
  contains "#" host = false →
  contains ":" (default "" port) = false →
  contains "?" (default "" port) = false →
  contains "#" (default "" port) = false →
  contains "#" (default "" query) = false →
  contains "#" (default "" label) = false →
  match port with Some p => int p = Return z | None => z = 443 end →
  ∃ params : gmap string string,
    parse_params (default "" query) = Return params ∧
    parse_config int (assemble uuid host port query label) =
      Return (descriptor uuid host z (default "Unknown" label) params).
Proof.
  intros Huuid Hhost0 Hhost1 Hhost2 Hport0 Hport1 Hport2 Hquery Hlabel Hz.
  destruct (parse_params_returns (default "" query)) as [params Hparams].
  exists params. split; [done|].
  rewrite (parse_config_url_parts int _ _ _ _ _
             (url_parts_assemble uuid host port query label
                Huuid Hhost1 Hhost2 Hport1 Hport2 Hquery Hlabel)).
  unfold finish. destruct port as [p|]; simpl in *.
  - rewrite (split_port_colon int _ host p) by (by split).
    rewrite Hz. cbn. by rewrite Hparams.
  - rewrite app_empty_r, (split_port_no_colon int _ Hhost0), Hz.
    cbn. by rewrite Hparams.
Qed.

(** X2 on a full connection string. *)
Lemma parse_assembled_witness :
  let uuid := "b831381d-6324-4d53-ad4f-8cda48b30811" in
  contains "@" uuid = false ∧
  ascii_int "8443" = Return 8443 ∧
  ∃ params : gmap string string,
    parse_params (default "" (Some "security=tls&sni=s.example")) = Return params ∧
    parse_config ascii_int
      (assemble uuid "example.com" (Some "8443")
         (Some "security=tls&sni=s.example") (Some "My Node")) =
      Return (descriptor uuid "example.com" 8443
                (default "Unknown" (Some "My Node")) params).
Proof.
  intros uuid. split; [reflexivity|]. split; [reflexivity|].
  apply (parse_assembled ascii_int uuid "example.com" (Some "8443")
           (Some "security=tls&sni=s.example") (Some "My Node") 8443);
    reflexivity.
Defined.

(** X3 on a query that only sets [security]. *)
Lemma unset_keys_read_defaults_witness :
  let s := "vless://uuid@example.com?security=tls&x" in
  let config := descriptor "uuid" "example.com" 443 "Unknown"
                  (<["security" := "tls"]> ∅) in
  url_parts s "uuid" "example.com" "security=tls&x" "Unknown" ∧
  parse_config ascii_int s = Return config ∧ config ≠ PNone ∧
  getitem config "type" = Return (PStr "tcp").
Proof.
  intros s config.
  assert (url_parts s "uuid" "example.com" "security=tls&x" "Unknown") as Hparts.
  { exists "example.com?security=tls&x", "example.com?security=tls&x".
    split; [reflexivity|]. split; [reflexivity|].
    split; [right; repeat split; reflexivity|].
    left. split; reflexivity. }
  assert (parse_config ascii_int s = Return config) as Hs.
  { vm_compute. reflexivity. }
  split; [exact Hparts|]. split; [exact Hs|]. split; [discriminate|].
  apply (unset_keys_read_defaults ascii_int s "uuid" "example.com"
           "security=tls&x" "Unknown" "type" "tcp" config Hparts Hs).
  - discriminate.
  - right. left.
  - repeat constructor; intros [value Hvalue]; discriminate Hvalue.
Defined.

(** ** Printing an integer and reading it back *)

Section IntRoundTrip.
Implicit Types (s : string) (c : ascii) (P : ascii → bool).

Lemma rev_app_rev_app s1 s2 s3 :
  String.rev_app (String.rev_app s1 s2) s3 = String.rev_app s2 (s1 +:+ s3).
Proof.
  revert s2. induction s1 as [|c s1 IH]; intros s2; simpl; [done|].
  by rewrite IH.
Qed.

Lemma rev_involutive s : String.rev (String.rev s) = s.
Proof.
  unfold String.rev. rewrite rev_app_rev_app. simpl. apply app_empty_r.
Qed.

Lemma all_chars_rev_app P s1 s2 :
  all_chars P (String.rev_app s1 s2) = all_chars P s1 && all_chars P s2.
Proof.
  revert s2. induction s1 as [|c s1 IH]; intros s2; simpl; [done|].
  rewrite IH. simpl. by destruct (P c), (all_chars P s1).
Qed.

Lemma all_chars_impl P Q s :
  (∀ c, P c = true → Q c = true) → all_chars P s = true → all_chars Q s = true.
Proof.
  intros HPQ. induction s as [|c s IH]; simpl; [done|].
  intros [Hc Hs]%andb_true_iff. by rewrite (HPQ c Hc), IH.
Qed.

(** White space is only dropped at the ends, so a text without any is
    left as it is. *)
Lemma lstrip_no_space s :
  all_chars (λ c, negb (Ascii.is_space c)) s = true → lstrip s = s.
Proof.
  destruct s as [|c s]; simpl; [done|]. by destruct (Ascii.is_space c).
Qed.

Lemma strip_no_space s :
  all_chars (λ c, negb (Ascii.is_space c)) s = true → strip s = s.
Proof.
  intros Hs. unfold strip. rewrite (lstrip_no_space s Hs).
  rewrite lstrip_no_space; [apply rev_involutive|].
  unfold String.rev. rewrite all_chars_rev_app, Hs. done.
Qed.

Lemma all_chars_not_contains P sep s :
  P sep = false → all_chars P s = true → contains sep s = false.
Proof.
  intros Hsep. induction s as [|c s IH]; simpl; [done|].
  intros [Hc Hs]%andb_true_iff.
  destruct (Ascii.eqb_spec c sep) as [->|_]; [congruence|auto].
Qed.

Lemma is_nat_pretty_N_char (d : N) :
  (d < 10)%N → Ascii.is_nat (pretty_N_char d) = Some (N.to_nat d).
Proof.
  intros Hd.
  assert (d = 0 ∨ d = 1 ∨ d = 2 ∨ d = 3 ∨ d = 4 ∨ d = 5 ∨ d = 6
          ∨ d = 7 ∨ d = 8 ∨ d = 9)%N as Hcases by lia.
  by repeat (destruct Hcases as [->|Hcases]); [..|subst].
Qed.

Lemma is_digit_pretty_N_char (d : N) : is_digit (pretty_N_char d) = true.
Proof. unfold pretty_N_char. by repeat case_match. Qed.

(** The digits that [pretty_N_go] puts in front of a text. *)
Lemma all_chars_pretty_N_go P (x : N) s :
  (∀ c, is_digit c = true → P c = true) →
  all_chars P s = true → all_chars P (pretty_N_go x s) = true.
Proof.
  intros HP. revert s. induction (N.lt_wf_0 x) as [x _ IH]; intros s Hs.
  assert (x = 0 ∨ 0 < x)%N as [->|Hx] by lia; [done|].
  rewrite pretty_N_go_step by done. apply IH; [by apply N.div_lt|].
  simpl. by rewrite HP, Hs by apply is_digit_pretty_N_char.
Qed.

Lemma int_digits_pretty_N_go (x : N) (after_digit : bool) s :
  (0 < x)%N →
  int_digits 0 after_digit (pretty_N_go x s) = int_digits (Z.of_N x) true s.
Proof.
  revert after_digit s. induction (N.lt_wf_0 x) as [x _ IH].
  intros after_digit s Hx. rewrite pretty_N_go_step by done.
  assert (Z.of_N x = 10 * Z.of_N (x `div` 10) + Z.of_nat (N.to_nat (x `mod` 10)))
    as Hdigits.
  { rewrite N_nat_Z, (N.div_mod x 10) at 1 by done. lia. }
  destruct (N.eq_0_gt_0_cases (x `div` 10)) as [Hzero|Hpos].
  - rewrite Hzero, pretty_N_go_0. simpl.
    rewrite is_nat_pretty_N_char by (by apply N.mod_lt).
    by rewrite Hdigits, Hzero.
  - rewrite IH by (done || by apply N.div_lt). simpl.
    rewrite is_nat_pretty_N_char by (by apply N.mod_lt).
    by rewrite Hdigits.
Qed.

(** A text that starts with a digit is read without a sign. *)
Lemma int_literal_digit_first c s :
  is_digit c = true →
  all_chars (λ c, negb (Ascii.is_space c)) (String c s) = true →
  int_literal (String c s) = int_digits 0 false (String c s).
Proof.
  intros Hc Hs. unfold int_literal. rewrite (strip_no_space _ Hs).
  destruct c as [[] [] [] [] [] [] [] []]; try discriminate Hc; reflexivity.
Qed.

Lemma pretty_N_go_digit_first (x : N) s :
  (0 < x)%N →
  ∃ c s', pretty_N_go x s = String c s' ∧ is_digit c = true.
Proof.
  revert s. induction (N.lt_wf_0 x) as [x _ IH]; intros s Hx.
  rewrite pretty_N_go_step by done.
  destruct (N.eq_0_gt_0_cases (x `div` 10)) as [Hzero|Hpos].
  - rewrite Hzero, pretty_N_go_0. eexists _, _. split; [done|].
    apply is_digit_pretty_N_char.
  - apply IH; [by apply N.div_lt|done].
Qed.

Lemma digit_is_no_space c : is_digit c = true → negb (Ascii.is_space c) = true.
Proof.
  intros Hc. destruct c as [[] [] [] [] [] [] [] []];
    try discriminate Hc; reflexivity.
Qed.

Lemma digit_or_minus_is_no_space c :
  is_digit_or_minus c = true → negb (Ascii.is_space c) = true.
Proof.
  unfold is_digit_or_minus. intros [Hc|Hc]%orb_true_iff.
  - by apply digit_is_no_space.
  - by apply Ascii.eqb_eq in Hc as ->.
Qed.

(** [str(z)] is made of digits and at most a leading minus. *)
Lemma str_of_int_chars (z : Z) : all_chars is_digit_or_minus (str_of_int z) = true.
Proof.
  assert (∀ p : positive,
    all_chars is_digit_or_minus (pretty_N_go (Npos p) "") = true) as Hpos.
  { intros p. apply all_chars_pretty_N_go; [|done].
    intros c Hc. unfold is_digit_or_minus. by rewrite Hc. }
  destruct z as [|p|p]; [done|apply Hpos|].
  change (str_of_int (Z.neg p)) with (String "-" (pretty_N_go (Npos p) "")).
  simpl. apply Hpos.
Qed.

(** [int(str(z))] is [z]. *)
Lemma ascii_int_str_of_int (z : Z) : ascii_int (str_of_int z) = Return z.
Proof.
  assert (∀ p : positive,
    int_literal (pretty_N_go (Npos p) "") = Some (Z.pos p)) as Hpos.
  { intros p.
    destruct (pretty_N_go_digit_first (Npos p) "") as (c & s' & Hgo & Hc); [done|].
    pose proof (str_of_int_chars (Z.pos p)) as Hchars.
    change (str_of_int (Z.pos p)) with (pretty_N_go (Npos p) "") in Hchars.
    rewrite Hgo in Hchars |- *.
    rewrite int_literal_digit_first; [|done|].
    - rewrite <-Hgo. by rewrite int_digits_pretty_N_go.
    - revert Hchars. apply all_chars_impl, digit_or_minus_is_no_space. }
  unfold ascii_int. destruct z as [|p|p]; [done|..].
  - change (str_of_int (Z.pos p)) with (pretty_N_go (Npos p) "").
    by rewrite Hpos.
  - change (str_of_int (Z.neg p)) with (String "-" (pretty_N_go (Npos p) "")).
    unfold int_literal. rewrite strip_no_space.
    + by rewrite int_digits_pretty_N_go.
    + generalize (str_of_int_chars (Z.neg p)).
      apply all_chars_impl, digit_or_minus_is_no_space.
Qed.

End IntRoundTrip.

(** ** Further properties of the report builder and of the probes *)

(** X4.  For a parsed descriptor the report's [server] is the host, a
    colon and the port in decimal, and reading that text back as an
    address part gives the same host and port, whatever the host holds.
    Without a descriptor [server] is "N/A". *)
Theorem server_text_parses_back (int : string → result Z)
    (env : Env) (s : string) (config : val) :
  init int s = Return config → config ≠ PNone →
  (∃ (report : val) (host : string) (port : Z),
     getitem config "host" = Return (PStr host) ∧
     getitem config "port" = Return (PInt port) ∧
     run_check env config = Return report ∧
     getitem report "server" = Return (PStr (host +:+ ":" +:+ str_of_int port)) ∧
     split_port ascii_int (host +:+ ":" +:+ str_of_int port) = Return (host, port)) ∧
  (∃ report : val,
     run_check env PNone = Return report ∧
     getitem report "server" = Return (PStr "N/A")).
Proof.
  intros Hs Hconfig. split; [|by eexists].
  destruct (parsed_descriptor int s config Hs Hconfig)
    as (uuid & host & port & name & params & ->).
  destruct (run_check_descriptor env uuid host port name params)
    as (_ & _ & _ & _ & Hrun).
  eexists _, host, port. split_and!; [done|done|exact Hrun|done|].
  rewrite (split_port_colon ascii_int _ host (str_of_int port)).
  - by rewrite ascii_int_str_of_int.
  - split; [done|].
    apply (all_chars_not_contains is_digit_or_minus); [done|].
    apply str_of_int_chars.
Qed.

(** X5.  The checks of a report on a parsed descriptor are, in this order,
    dns, geo, tcp and http, each with the success flag and the message of
    its probe. *)
Theorem checks_in_probe_order (int : string → result Z)
    (env : Env) (s : string) (config : val) :
  init int s = Return config → config ≠ PNone →
  ∃ (report : val) (dns geo tcp http : bool * string),
    check_dns env config = Return dns ∧
    check_geo env config = Return geo ∧
    check_tcp env config = Return tcp ∧
    check_http env config = Return http ∧
    run_check env config = Return report ∧
    getitem report "checks" =
      Return (PDict [ ("dns", PDict [("success", PBool dns.1); ("message", PStr dns.2)]);
                      ("geo", PDict [("success", PBool geo.1); ("message", PStr geo.2)]);
                      ("tcp", PDict [("success", PBool tcp.1); ("message", PStr tcp.2)]);
                      ("http", PDict [("success", PBool http.1); ("message", PStr http.2)]) ]).
Proof.
  intros Hs Hconfig.
  destruct (parsed_descriptor int s config Hs Hconfig)
    as (uuid & host & port & name & params & ->).
  destruct (run_check_descriptor env uuid host port name params)
    as (Hdns & Hgeo & Htcp & Hhttp & Hrun).
  by eexists _, _, _, _, _.
Qed.

(** X6.  On a parsed descriptor [success_rate] is one of 0/4 to 4/4; a
    successful report has 3/4 or 4/4, and 4/4 only goes with success.  So
    3/4 alone does not tell whether the run succeeded. *)
Theorem success_and_rate (int : string → result Z)
    (env : Env) (s : string) (config : val) :
  init int s = Return config → config ≠ PNone →
  ∃ (report : val) (ok : bool) (rate : string),
    run_check env config = Return report ∧
    getitem report "success" = Return (PBool ok) ∧
    getitem report "success_rate" = Return (PStr rate) ∧
    rate ∈ ["0/4"; "1/4"; "2/4"; "3/4"; "4/4"] ∧
    (ok = true → rate = "3/4" ∨ rate = "4/4") ∧
    (rate = "4/4" → ok = true).
Proof.
  intros Hs Hconfig.
  destruct (parsed_descriptor int s config Hs Hconfig)
    as (uuid & host & port & name & params & ->).
  destruct (run_check_descriptor env uuid host port name params)
    as (_ & _ & _ & _ & Hrun).
  eexists _, _, _. split; [exact Hrun|]. split; [done|]. split; [done|].
  destruct (dns_lookup env (PStr host)).1, (geo_lookup env (PStr host)).1,
    (tcp_connect env (PStr host) (PInt port)).1, (http_requests env).1;
    vm_compute; split_and!; first [done | by auto | set_solver].
Qed.

(** X7.  No probe raises, whatever [self.config] holds; and on a value
    that counts as false (no descriptor) the DNS, Geo and TCP probes fail
    with "Config parse error" without going to the network, while the
    HTTP probe does not look at the descriptor at all. *)
Theorem probes_always_answer (env : Env) (config : val) :
  (∃ dns geo tcp http : bool * string,
     check_dns env config = Return dns ∧
     check_geo env config = Return geo ∧
     check_tcp env config = Return tcp ∧
     check_http env config = Return http) ∧
  (truthy config = false →
     check_dns env config = Return (false, "Config parse error") ∧
     check_geo env config = Return (false, "Config parse error") ∧
     check_tcp env config = Return (false, "Config parse error")) ∧
  check_http env config = Return (http_requests env).
Proof.
  split_and!; [|by unfold check_dns, check_geo, check_tcp; intros ->|done].
  unfold check_dns, check_geo, check_tcp, check_http.
  destruct (truthy config); simpl; [|by eexists _, _, _, _].
  destruct config as [| | | |d]; simpl; try by eexists _, _, _, _.
  destruct (dict_get "host" d), (dict_get "port" d); simpl;
    by eexists _, _, _, _.
Qed.

(** ** The HTTP probe in detail *)

Section HttpProbe.
Context (netloc : string → string).
Implicit Types (net : HttpNet) (results : list string) (url : string).

Lemma ok_entry_counts (rest : string) : startswith (ok_mark +:+ rest) ok_mark = true.
Proof. apply startswith_prefix. Qed.

Lemma fail_entry_does_not_count (rest : string) :
  startswith (fail_mark +:+ rest) ok_mark = false.
Proof. reflexivity. Qed.

Lemma passed_app_ok results (rest : string) :
  List.length (filter (λ r, startswith r ok_mark = true)
                 (results ++ [ok_mark +:+ rest])%list) =
  S (List.length (filter (λ r, startswith r ok_mark = true) results)).
Proof.
  rewrite filter_app, length_app, filter_cons, decide_True
    by apply ok_entry_counts.
  simpl. lia.
Qed.

Lemma passed_app_fail results (rest : string) :
  List.length (filter (λ r, startswith r ok_mark = true)
                 (results ++ [fail_mark +:+ rest])%list) =
  List.length (filter (λ r, startswith r ok_mark = true) results).
Proof.
  rewrite filter_app, length_app, filter_cons, decide_False
    by (by rewrite fail_entry_does_not_count).
  simpl. lia.
Qed.

(** The entries that count as passed, after one more request. *)
Lemma passed_after_request net results url :
  List.length (filter (λ r, startswith r ok_mark = true)
                 (http_request netloc net results url)) =
  (List.length (filter (λ r, startswith r ok_mark = true) results)
   + match http_get net url with
     | Answered 200 _ _ => 1
     | _ => 0
     end)%nat.
Proof.
  unfold http_request.
  destruct (http_get net url) as [e|status ms release].
  - rewrite passed_app_fail. lia.
  - destruct (Z.eqb_spec status 200) as [->|Hstatus].
    + destruct release; rewrite ?passed_app_fail, passed_app_ok; lia.
    + assert (match status with 200 => 1%nat | _ => 0%nat end = 0%nat) as ->.
      { destruct status as [|p|p]; try done.
        do 8 (destruct p as [p|p|]; try done). }
      destruct release; rewrite !passed_app_fail; lia.
Qed.

End HttpProbe.

Lemma answered_200_cases (a : http_answer) :
  ((∃ ms release, a = Answered 200 ms release) ∧
   match a with Answered 200 _ _ => 1%nat | _ => 0%nat end = 1%nat) ∨
  ((∀ ms release, a ≠ Answered 200 ms release) ∧
   match a with Answered 200 _ _ => 1%nat | _ => 0%nat end = 0%nat).
Proof.
  destruct a as [e|status ms release]; [by right|].
  destruct (decide (status = 200)) as [->|Hstatus]; [left; eauto|right].
  split; [congruence|].
  destruct status as [|p|p]; try done.
  do 8 (destruct p as [p|p|]; try done).
Qed.

(** X8.  The HTTP probe never raises, and it succeeds exactly when the
    session could be opened and closed and at least one of the two test
    requests was answered with status 200; one such answer is enough. *)
Theorem http_probe_succeeds_iff (netloc : string → string) (net : HttpNet) :
  ∃ (ok : bool) (msg : string),
    http_probe netloc net = Return (ok, msg) ∧
    (ok = true ↔
     session_enter net = None ∧ session_exit net = None ∧
     ∃ (url ms : string) (release : option exn),
       url ∈ test_urls ∧ http_get net url = Answered 200 ms release).
Proof.
  unfold http_probe.
  destruct (session_enter net) as [e|];
    [eexists _, _; split; [done|]; split; [done|by intros (? & ? & ?)]|].
  destruct (session_exit net) as [e|];
    [eexists _, _; split; [done|]; split; [done|by intros (? & ? & ?)]|].
  eexists _, _. split; [done|].
  unfold len, test_urls. cbn [foldl].
  rewrite Z.ltb_lt, !passed_after_request. cbn [filter list_filter List.length].
  destruct (answered_200_cases (http_get net "https://www.google.com"))
    as [[(ms1 & release1 & H1) ->]|[H1 ->]],
    (answered_200_cases (http_get net "https://httpbin.org/ip"))
    as [[(ms2 & release2 & H2) ->]|[H2 ->]].
  - split; [|lia]. intros _. split_and!; [done..|].
    eexists _, _, _. split; [|exact H1]. set_solver.
  - split; [|lia]. intros _. split_and!; [done..|].
    eexists _, _, _. split; [|exact H1]. set_solver.
  - split; [|lia]. intros _. split_and!; [done..|].
    eexists _, _, _. split; [|exact H2]. set_solver.
  - split; [simpl; lia|]. intros (_ & _ & url & ms & release & Hurl & Hget).
    set_unfold in Hurl. destruct Hurl as [->|[->|[]]];
      [by destruct (H1 ms release)|by destruct (H2 ms release)].
Qed.

(** ** The notification text *)

Section RenderingFacts.
Implicit Types (sep : ascii) (s message : string) (env : Env).

Lemma item0_split sep s : item0 (split sep s) = Return (first_piece sep s).
Proof.
  unfold first_piece. induction s as [|c s IH]; simpl; [done|].
  destruct (Ascii.eqb c sep); [done|].
  destruct (split sep s) as [|piece pieces]; [done|].
  simpl in *. destruct (cut_first sep s) as [[a b]|]; by simplify_eq.
Qed.

Lemma first_piece_no_sep sep s : contains sep (first_piece sep s) = false.
Proof.
  unfold first_piece. destruct (cut_first sep s) as [[a b]|] eqn:Hcut.
  - by apply cut_first_Some in Hcut as [_ ?].
  - by apply cut_first_None.
Qed.

Lemma first_piece_prefix sep s : ∃ rest, s = first_piece sep s +:+ rest.
Proof.
  unfold first_piece. destruct (cut_first sep s) as [[a b]|] eqn:Hcut.
  - apply cut_first_Some in Hcut as [-> _]. by eexists.
  - exists "". by rewrite app_empty_r.
Qed.

Lemma first_piece_whole sep s : contains sep s = false → first_piece sep s = s.
Proof.
  intros Hs. unfold first_piece. by rewrite (proj2 (cut_first_None sep s) Hs).
Qed.

(** The text for the report of a run on a descriptor. *)
Lemma format_report_descriptor env uuid host port name params report :
  let dns := dns_lookup env (PStr host) in
  let geo := geo_lookup env (PStr host) in
  let tcp := tcp_connect env (PStr host) (PInt port) in
  let http := http_requests env in
  run_check env (descriptor uuid host port name params) = Return report →
  format_report report =
    Return (report_title +:+ nl +:+ nl
            +:+ (if dns.1 && tcp.1 && http.1 then ok_mark else fail_mark)
            +:+ " <b>Status:</b> "
            +:+ (if dns.1 && tcp.1 && http.1 then "OK" else "FAILED") +:+ nl
            +:+ success_label
            +:+ str_of_int (sum [dns.1; geo.1; tcp.1; http.1]) +:+ "/4" +:+ nl
            +:+ time_label +:+ now env +:+ nl
            +:+ server_label +:+ host +:+ ":" +:+ str_of_int port +:+ nl +:+ nl
            +:+ rendered_line "DNS" dns
            +:+ rendered_line "GEO" geo
            +:+ rendered_line "TCP" tcp
            +:+ rendered_line "HTTP" http).
Proof.
  intros dns geo tcp http Hrun.
  destruct (run_check_descriptor env uuid host port name params)
    as (_ & _ & _ & _ & Hrun').
  rewrite Hrun' in Hrun. injection Hrun as <-.
  fold dns geo tcp http.
  unfold format_report, rendered_line.
  cbn -[str_of_int sum String.append split report_title success_label
        time_label server_label ok_mark fail_mark nl].
  rewrite !item0_split.
  cbn -[str_of_int sum String.append report_title success_label
        time_label server_label ok_mark fail_mark nl].
  rewrite !str_app_assoc.
  by destruct (dns.1 && tcp.1 && http.1), dns.1, geo.1, tcp.1, http.1.
Qed.

(** The text for the report of a run without a descriptor. *)
Lemma format_report_None env report :
  run_check env PNone = Return report →
  format_report report =
    Return (report_title +:+ nl +:+ nl
            +:+ fail_mark +:+ " <b>Status:</b> FAILED" +:+ nl
            +:+ success_label +:+ "0/0" +:+ nl
            +:+ time_label +:+ now env +:+ nl
            +:+ server_label +:+ "N/A" +:+ nl +:+ nl
            +:+ rendered_line "CONFIG" (false, "VLESS config parse error")).
Proof.
  rewrite run_check_None. intros [= <-].
  unfold format_report, rendered_line.
  cbn -[String.append report_title success_label time_label server_label
        ok_mark fail_mark nl].
  by rewrite !str_app_assoc.
Qed.

End RenderingFacts.

(** X9.  Of a check's message the notification shows the part before the
    first newline: the indexing of the split never fails, the part shown
    has no newline, starts the message, and is the whole message when
    that has no newline. *)
Theorem first_line_is_shown (message : string) :
  item0 (split newline message) = Return (first_piece newline message) ∧
  contains newline (first_piece newline message) = false ∧
  (∃ rest : string, message = first_piece newline message +:+ rest) ∧
  (contains newline message = false → first_piece newline message = message).
Proof.
  split_and!.
  - apply item0_split.
  - apply first_piece_no_sep.
  - apply first_piece_prefix.
  - apply first_piece_whole.
Qed.

(** X10.  The notification for a run on a parsed descriptor: the title,
    the status with the mark of the overall success, the success rate,
    the time, the server, and one line per check in the order DNS, GEO,
    TCP, HTTP, each with the mark of its own probe, the name in capitals
    and the first line of the message. *)
Theorem format_report_of_run (int : string → result Z)
    (env : Env) (s : string) (config : val) :
  init int s = Return config → config ≠ PNone →
  ∃ (report : val) (dns geo tcp http : bool * string)
    (status rate server : string),
    check_dns env config = Return dns ∧
    check_geo env config = Return geo ∧
    check_tcp env config = Return tcp ∧
    check_http env config = Return http ∧
    run_check env config = Return report ∧
    getitem report "overall_status" = Return (PStr status) ∧
    getitem report "success_rate" = Return (PStr rate) ∧
    getitem report "server" = Return (PStr server) ∧
    format_report report =
      Return (report_title +:+ nl +:+ nl
              +:+ (if dns.1 && tcp.1 && http.1 then ok_mark else fail_mark)
              +:+ " <b>Status:</b> " +:+ status +:+ nl
              +:+ success_label +:+ rate +:+ nl
              +:+ time_label +:+ now env +:+ nl
              +:+ server_label +:+ server +:+ nl +:+ nl
              +:+ rendered_line "DNS" dns
              +:+ rendered_line "GEO" geo
              +:+ rendered_line "TCP" tcp
              +:+ rendered_line "HTTP" http).
Proof.
  intros Hs Hconfig.
  destruct (parsed_descriptor int s config Hs Hconfig)
    as (uuid & host & port & name & params & ->).
  destruct (run_check_descriptor env uuid host port name params)
    as (Hdns & Hgeo & Htcp & Hhttp & Hrun).
  eexists _, _, _, _, _, _, _, _.
  split_and!; [exact Hdns|exact Hgeo|exact Htcp|exact Hhttp|exact Hrun|done..|].
  rewrite (format_report_descriptor env uuid host port name params _ Hrun).
  by rewrite !str_app_assoc.
Qed.

(** X11.  From any text, building the checker, running the check and
    rendering the report gives a notification: no step raises.  For a
    text that does not parse, the notification has the single check line
    CONFIG. *)
Theorem notification_always_produced (int : string → result Z)
    (env : Env) (s : string) :
  ∃ (config report : val) (text : string),
    init int s = Return config ∧
    run_check env config = Return report ∧
    format_report report = Return text ∧
    (config = PNone →
     text = report_title +:+ nl +:+ nl
            +:+ fail_mark +:+ " <b>Status:</b> FAILED" +:+ nl
            +:+ success_label +:+ "0/0" +:+ nl
            +:+ time_label +:+ now env +:+ nl
            +:+ server_label +:+ "N/A" +:+ nl +:+ nl
            +:+ fail_mark +:+ " <b>CONFIG:</b> VLESS config parse error" +:+ nl).
Proof.
  destruct (parse_config_cases int s)
    as [H|(uuid & ? & ? & label & host & port & params & _ & _ & _ & H)].
  - eexists PNone, _, _. split; [exact H|]. split; [apply run_check_None|].
    split; [apply format_report_None, run_check_None|done].
  - destruct (run_check_descriptor env uuid host port label params)
      as (_ & _ & _ & _ & Hrun).
    eexists _, _, _. split; [exact H|]. split; [exact Hrun|].
    split; [by apply (format_report_descriptor env uuid host port label params)|].
    done.
Qed.

(** ** The recipients and the sending *)

Section Recipients.
Implicit Types (sep : ascii) (s : string) (ids : list string).

Lemma split_nonempty sep s : split sep s ≠ [].
Proof.
  destruct s as [|c s]; simpl; [done|].
  destruct (Ascii.eqb c sep); [done|]. by destruct (split sep s).
Qed.

Lemma join_cons sep piece pieces :
  pieces ≠ [] →
  join sep (piece :: pieces) = piece +:+ String sep (join sep pieces).
Proof. by destruct pieces. Qed.

Lemma join_split sep s : join sep (split sep s) = s.
Proof.
  induction s as [|c s IH]; simpl; [done|].
  pose proof (split_nonempty sep s) as Hne.
  destruct (Ascii.eqb_spec c sep) as [->|_].
  - by rewrite join_cons, IH.
  - destruct (split sep s) as [|piece [|piece' pieces]]; [done|..].
    + simpl in *. by rewrite IH.
    + change (join sep (String c piece :: piece' :: pieces))
        with (String c (join sep (piece :: piece' :: pieces))).
      by rewrite IH.
Qed.

Lemma split_pieces_no_sep sep s :
  Forall (λ piece, contains sep piece = false) (split sep s).
Proof.
  induction s as [|c s IH]; simpl; [by repeat constructor|].
  destruct (Ascii.eqb_spec c sep) as [->|Hne]; [by constructor|].
  pose proof (split_nonempty sep s) as Hsplit.
  destruct (split sep s) as [|piece pieces]; [done|].
  inversion IH; subst. constructor; [|done].
  simpl. by rewrite (proj2 (Ascii.eqb_neq _ _) Hne).
Qed.

End Recipients.

(** X12.  The recipients are the pieces between the commas of the
    CHAT_IDS variable: joined by commas they give the variable back, and
    none holds a comma.  There are no recipients exactly when the
    variable is unset or empty. *)
Theorem chat_ids_of_variable (var : option string) :
  (chat_ids var = [] ↔ var = None ∨ var = Some "") ∧
  (∀ value : string,
     var = Some value → value ≠ "" →
     join "," (chat_ids var) = value ∧
     Forall (λ id, contains "," id = false) (chat_ids var)).
Proof.
  split.
  - destruct var as [[|c value]|].
    + split; [by right|done].
    + split; [|by intros [?|?]].
      intros H. by destruct (split_nonempty "," (String c value)).
    + split; [by left|done].
  - intros [|c value] -> Hvalue; [done|]. unfold chat_ids, getenv.
    cbn [truthy String.eqb negb default].
    split; [apply join_split|apply split_pieces_no_sep].
Qed.

Section Sending.
Context (int : string → result Z) (strip : string → string).
Implicit Types (post : Post) (token report chat_id : string).
Implicit Types (ids contacted : list string) (count : Z).

Lemma send_message_returns (post1 : string → val → result Z) token chat_id text :
  let url := ("https://api.telegram.org/bot" +:+ token) +:+ "/sendMessage" in
  let data := PDict [ ("chat_id", PStr chat_id); ("text", PStr text);
                      ("parse_mode", PStr "HTML") ] in
  ∃ sent : bool,
    send_message post1 token chat_id text = Return sent ∧
    (sent = true ↔ post1 url data = Return 200).
Proof.
  intros url data. unfold send_message. fold url data.
  destruct (post1 url data) as [status|e]; cbn.
  - eexists. split; [done|]. rewrite Z.eqb_eq. split; congruence.
  - by exists false.
Qed.

(** One turn of the loop: a blank recipient is passed over, any other is
    sent the report once. *)
Lemma deliver_step_returns post token report count contacted id :
  (strip id = "" ∧
   deliver_step strip post token report (count, contacted) id =
     Return (count, contacted)) ∨
  (strip id ≠ "" ∧
   ∃ sent : bool,
     deliver_step strip post token report (count, contacted) id =
       Return (if sent then count + 1 else count, (contacted ++ [strip id])%list) ∧
     (sent = true → ∃ url data, post contacted url data = Return 200) ∧
     (sent = false → ∃ url data, post contacted url data ≠ Return 200)).
Proof.
  unfold deliver_step. cbn [truthy].
  destruct (String.eqb_spec (strip id) "") as [Hblank|Hid]; cbn [negb].
  - by left.
  - right. split; [done|].
    destruct (send_message_returns (post contacted) token (strip id) report)
      as (sent & -> & Hsent).
    exists sent. split; [done|]. split.
    + intros Htrue. eexists _, _. by apply Hsent.
    + intros ->. eexists _, _. intros Hpost. by apply Hsent in Hpost.
Qed.

(** The loop over the recipients: who is contacted, and how the count
    moves. *)
Lemma deliver_loop post token report ids count contacted :
  ∃ count' : Z,
    for_each (deliver_step strip post token report) ids (count, contacted) =
      Return (count', (contacted ++ filter (λ id, id ≠ "") (strip <$> ids))%list) ∧
    (count ≤ count' ≤
       count + Z.of_nat (List.length (filter (λ id, id ≠ "") (strip <$> ids))))%Z ∧
    ((∀ before url data, post before url data = Return 200) →
     count' = count + Z.of_nat (List.length (filter (λ id, id ≠ "") (strip <$> ids)))) ∧
    ((∀ before url data, post before url data ≠ Return 200) → count' = count).
Proof.
  revert count contacted.
  induction ids as [|id ids IH]; intros count contacted.
  - exists count. simpl. rewrite app_nil_r. split_and!; [done|lia..|done].
  - cbn [for_each fmap list_fmap]. rewrite filter_cons.
    destruct (deliver_step_returns post token report count contacted id)
      as [[Hblank ->]|(Hid & sent & -> & Htrue & Hfalse)]; cbn.
    + rewrite decide_False by (by intros ?). apply IH.
    + rewrite decide_True by done.
      destruct (IH (if sent then count + 1 else count)
                  (contacted ++ [strip id])%list)
        as (count' & -> & Hbounds & Hall & Hnone).
      exists count'. rewrite <-(assoc_L (++)). cbn [app List.length].
      split_and!; [done|destruct sent; lia..| |].
      * intros Hpost. rewrite (Hall Hpost).
        destruct sent; [lia|].
        destruct (Hfalse eq_refl) as (url & data & Hne).
        by destruct (Hne (Hpost _ _ _)).
      * intros Hpost. rewrite (Hnone Hpost).
        destruct sent; [|done].
        destruct (Htrue eq_refl) as (url & data & Heq).
        by destruct (Hpost _ _ _ Heq).
Qed.

End Sending.

Section Reports.
Context (int : string → result Z) (strip : string → string).
Implicit Types (env : Env) (post : Post) (token config_str : string).
Implicit Types (ids : list string).

Lemma notification_exists env config_str :
  ∃ (config report : val) (text : string),
    init int config_str = Return config ∧
    run_check env config = Return report ∧
    format_report report = Return text.
Proof.
  destruct (parse_config_cases int config_str)
    as [H|(uuid & ? & ? & label & host & port & params & _ & _ & _ & H)].
  - eexists PNone, _, _. split; [exact H|]. split; [apply run_check_None|].
    apply format_report_None, run_check_None.
  - destruct (run_check_descriptor env uuid host port label params)
      as (_ & _ & _ & _ & Hrun).
    eexists _, _, _. split; [exact H|]. split; [exact Hrun|].
    by apply (format_report_descriptor env uuid host port label params).
Qed.

(** A run with the token, the recipients and the connection string set. *)
Lemma send_telegram_reports_configured env post token config_str ids :
  token ≠ "" → ids ≠ [] → config_str ≠ "" →
  ∃ count : Z,
    send_telegram_reports int strip env post token config_str ids =
      Return {| contacted := filter (λ id, id ≠ "") (strip <$> ids);
                delivered := count;
                printed := sent_label +:+ str_of_int count +:+ "/"
                           +:+ str_of_int (len ids) +:+ " chats" |} ∧
    (0 ≤ count ≤ Z.of_nat (List.length (filter (λ id, id ≠ "") (strip <$> ids))))%Z ∧
    ((∀ before url data, post before url data = Return 200) →
     count = Z.of_nat (List.length (filter (λ id, id ≠ "") (strip <$> ids)))) ∧
    ((∀ before url data, post before url data ≠ Return 200) → count = 0).
Proof.
  intros Htoken Hids Hconfig.
  assert (match ids with [] => true | _ :: _ => false end = false) as Hsome
    by (by destruct ids).
  unfold send_telegram_reports. cbn [truthy]. rewrite Hsome.
  destruct (String.eqb_spec token "") as [?|_]; [done|].
  destruct (String.eqb_spec config_str "") as [?|_]; [done|].
  cbn [negb orb].
  destruct (notification_exists env config_str)
    as (config & report & text & -> & Hrun & Htext).
  cbn -[for_each deliver_step str_of_int String.append].
  rewrite Hrun. cbn -[for_each deliver_step str_of_int String.append].
  rewrite Htext. cbn -[for_each deliver_step str_of_int String.append].
  destruct (deliver_loop strip post token text ids 0 [])
    as (count & -> & Hbounds & Hall & Hnone).
  exists count. split; [done|]. split_and!; [lia..| |done].
  intros Hpost. rewrite (Hall Hpost). lia.
Qed.

End Reports.

(** X13.  Sending one message never raises: it tells true exactly when
    the POST to the bot's sendMessage address is answered with status
    200, and false on any other status and on any exception. *)
Theorem send_message_true_iff (post1 : string → val → result Z)
    (token chat_id text : string) :
  ∃ sent : bool,
    send_message post1 token chat_id text = Return sent ∧
    (sent = true ↔
     post1 (("https://api.telegram.org/bot" +:+ token) +:+ "/sendMessage")
       (PDict [ ("chat_id", PStr chat_id); ("text", PStr text);
                ("parse_mode", PStr "HTML") ]) = Return 200).
Proof. apply send_message_returns. Qed.

(** X14.  Sending the reports never raises.  With the token, the
    recipients or the connection string missing, nobody is contacted.
    Otherwise, whether or not the connection string parses, the
    recipients contacted are the stripped entries that are not blank, in
    their order; the count of deliveries lies between 0 and their number;
    and the line printed gives that count over the number of all entries,
    blank ones included. *)
Theorem delivery_outcome (int : string → result Z) (strip : string → string)
    (env : Env) (post : Post) (token config_str : string) (ids : list string) :
  ∃ d : Delivery,
    send_telegram_reports int strip env post token config_str ids = Return d ∧
    (token = "" ∨ ids = [] ∨ config_str = "" →
     contacted d = [] ∧ delivered d = 0 ∧
     (printed d = bot_not_set ∨ printed d = config_not_set)) ∧
    (token ≠ "" → ids ≠ [] → config_str ≠ "" →
     contacted d = filter (λ id, id ≠ "") (strip <$> ids) ∧
     (0 ≤ delivered d ≤ Z.of_nat (List.length (contacted d)))%Z ∧
     (List.length (contacted d) ≤ List.length ids)%nat ∧
     printed d = sent_label +:+ str_of_int (delivered d) +:+ "/"
                 +:+ str_of_int (len ids) +:+ " chats").
Proof.
  destruct (decide (token = "")) as [->|Htoken].
  { eexists. split; [done|]. split; [by auto|done]. }
  destruct (decide (ids = [])) as [->|Hids].
  { unfold send_telegram_reports. rewrite orb_true_r.
    eexists. split; [done|]. split; [by auto|done]. }
  destruct (decide (config_str = "")) as [->|Hconfig].
  { unfold send_telegram_reports. cbn [truthy].
    destruct (String.eqb_spec token "") as [?|_]; [done|].
    destruct ids; [done|]. cbn.
    eexists. split; [done|]. split; [by auto|done]. }
  destruct (send_telegram_reports_configured int strip env post
              token config_str ids Htoken Hids Hconfig)
    as (count & -> & Hbounds & _ & _).
  eexists. split; [done|]. split; [by intros [?|[?|?]]|].
  intros _ _ _. cbn. split_and!; [done|lia..| |done].
  etrans; [apply length_filter|]. by rewrite length_fmap.
Qed.

(** X15.  When every POST is answered with status 200, the count of
    deliveries is the number of recipients contacted; when none is, the
    count is 0. *)
Theorem delivered_all_or_none (int : string → result Z)
    (strip : string → string) (env : Env) (post : Post)
    (token config_str : string) (ids : list string) :
  token ≠ "" → ids ≠ [] → config_str ≠ "" →
  ∃ d : Delivery,
    send_telegram_reports int strip env post token config_str ids = Return d ∧
    ((∀ before url data, post before url data = Return 200) →
     delivered d = Z.of_nat (List.length (contacted d))) ∧
    ((∀ before url data, post before url data ≠ Return 200) →
     delivered d = 0).
Proof.
  intros Htoken Hids Hconfig.
  destruct (send_telegram_reports_configured int strip env post
              token config_str ids Htoken Hids Hconfig)
    as (count & -> & _ & Hall & Hnone).
  eexists. split; [done|]. by split.
Qed.

(** ** The further properties at concrete inputs *)

(** X4 on a descriptor whose host is an address in brackets. *)
Lemma server_text_parses_back_witness :
  let env := answering true true true true in
  let s := "vless://uuid@[2001:db8::1]:8443" in
  let config := descriptor "uuid" "[2001:db8::1]" 8443 "Unknown" ∅ in
  init ascii_int s = Return config ∧ config ≠ PNone ∧
  (∃ (report : val) (host : string) (port : Z),
     getitem config "host" = Return (PStr host) ∧
     getitem config "port" = Return (PInt port) ∧
     run_check env config = Return report ∧
     getitem report "server" = Return (PStr (host +:+ ":" +:+ str_of_int port)) ∧
     split_port ascii_int (host +:+ ":" +:+ str_of_int port) = Return (host, port)) ∧
  (∃ report : val,
     run_check env PNone = Return report ∧
     getitem report "server" = Return (PStr "N/A")).
Proof.
  intros env s config. split; [reflexivity|]. split; [discriminate|].
  apply (server_text_parses_back ascii_int env s config);
    [reflexivity|discriminate].
Defined.

(** X5 on a network where only the Geo probe fails. *)
Lemma checks_in_probe_order_witness :
  let env := answering true false true true in
  let s := "vless://uuid@example.com:8443" in
  let config := descriptor "uuid" "example.com" 8443 "Unknown" ∅ in
  init ascii_int s = Return config ∧ config ≠ PNone ∧
  ∃ (report : val) (dns geo tcp http : bool * string),
    check_dns env config = Return dns ∧
    check_geo env config = Return geo ∧
    check_tcp env config = Return tcp ∧
    check_http env config = Return http ∧
    run_check env config = Return report ∧
    getitem report "checks" =
      Return (PDict [ ("dns", PDict [("success", PBool dns.1); ("message", PStr dns.2)]);
                      ("geo", PDict [("success", PBool geo.1); ("message", PStr geo.2)]);
                      ("tcp", PDict [("success", PBool tcp.1); ("message", PStr tcp.2)]);
                      ("http", PDict [("success", PBool http.1); ("message", PStr http.2)]) ]).
Proof.
  intros env s config. split; [reflexivity|]. split; [discriminate|].
  apply (checks_in_probe_order ascii_int env s config);
    [reflexivity|discriminate].
Defined.

(** X6 on a network where only the DNS probe fails: 3/4 without
    success. *)
Lemma success_and_rate_witness :
  let env := answering false true true true in
  let s := "vless://uuid@example.com:8443" in
  let config := descriptor "uuid" "example.com" 8443 "Unknown" ∅ in
  init ascii_int s = Return config ∧ config ≠ PNone ∧
  ∃ (report : val) (ok : bool) (rate : string),
    run_check env config = Return report ∧
    getitem report "success" = Return (PBool ok) ∧
    getitem report "success_rate" = Return (PStr rate) ∧
    rate ∈ ["0/4"; "1/4"; "2/4"; "3/4"; "4/4"] ∧
    (ok = true → rate = "3/4" ∨ rate = "4/4") ∧
    (rate = "4/4" → ok = true).
Proof.
  intros env s config. split; [reflexivity|]. split; [discriminate|].
  apply (success_and_rate ascii_int env s config); [reflexivity|discriminate].
Defined.

(** X10 on a network where only the Geo probe fails. *)
Lemma format_report_of_run_witness :
  let env := answering true false true true in
  let s := "vless://uuid@example.com:8443" in
  let config := descriptor "uuid" "example.com" 8443 "Unknown" ∅ in
  init ascii_int s = Return config ∧ config ≠ PNone ∧
  ∃ (report : val) (dns geo tcp http : bool * string)
    (status rate server : string),
    check_dns env config = Return dns ∧
    check_geo env config = Return geo ∧
    check_tcp env config = Return tcp ∧
    check_http env config = Return http ∧
    run_check env config = Return report ∧
    getitem report "overall_status" = Return (PStr status) ∧
    getitem report "success_rate" = Return (PStr rate) ∧
    getitem report "server" = Return (PStr server) ∧
    format_report report =
      Return (report_title +:+ nl +:+ nl
              +:+ (if dns.1 && tcp.1 && http.1 then ok_mark else fail_mark)
              +:+ " <b>Status:</b> " +:+ status +:+ nl
              +:+ success_label +:+ rate +:+ nl
              +:+ time_label +:+ now env +:+ nl
              +:+ server_label +:+ server +:+ nl +:+ nl
              +:+ rendered_line "DNS" dns
              +:+ rendered_line "GEO" geo
              +:+ rendered_line "TCP" tcp
              +:+ rendered_line "HTTP" http).
Proof.
  intros env s config. split; [reflexivity|]. split; [discriminate|].
  apply (format_report_of_run ascii_int env s config);
    [reflexivity|discriminate].
Defined.

(** X15 on three entries, one of them blank, with a service that accepts
    every message. *)
Lemma delivered_all_or_none_witness :
  let env := answering true true true true in
  let post : Post := λ _ _ _, Return 200 in
  let ids := [" 1001 "; " "; "1002"] in
  "token" ≠ "" ∧ ids ≠ [] ∧ "vless://uuid@example.com" ≠ "" ∧
  ∃ d : Delivery,
    send_telegram_reports ascii_int Py.strip env post "token"
      "vless://uuid@example.com" ids = Return d ∧
    ((∀ before url data, post before url data = Return 200) →
     delivered d = Z.of_nat (List.length (contacted d))) ∧
    ((∀ before url data, post before url data ≠ Return 200) →
     delivered d = 0).
Proof.
  intros env post ids. split; [discriminate|]. split; [discriminate|].
  split; [discriminate|].
  apply (delivered_all_or_none ascii_int Py.strip env post "token"
           "vless://uuid@example.com" ids); discriminate.
Defined.
